(** * combadge: binding a service protocol to a backend

    A shallow embedding of [combadge/core/binder.py] and of the asynchronous
    HTTPX backend [combadge/support/httpx/backends/async_.py], with the
    properties of the binding engine proved over it.

    Python objects are modelled by what the code reads from them: a class by
    its identity, its own namespace and the namespaces of its ancestors; a
    method by its parameters, its annotations and its method markers; a call
    by a state-and-exception monad over the run-time world (the objects that
    exist and the ordered trace of what the backend did). *)

From Stdlib Require Import ZArith.
From stdpp Require Import base option list sorting strings gmap.

Open Scope string_scope.
Open Scope list_scope.
Set Warnings "-register-all".

(** ** Values, exceptions and results *)

(** The Python values the engine handles: call arguments, defaults, what
    ends up in a request, and references to objects of the world. *)
Inductive Value :=
  | VNone
  | VInt (z : Z)
  | VStr (s : string)
  | VTuple (items : list Value)
  | VDict (items : list (string * Value))
  | VRef (loc : nat).

(** The exceptions the modelled code can raise. *)
Inductive Exc :=
  | TypeError (msg : string)          (* inspect.Signature.bind *)
  | NameError (name : string)         (* get_annotations(..., eval_str=True) *)
  | AttributeError (name : string)
  | HTTPStatusError (status : Z)      (* httpx: Response.raise_for_status *)
  | TransportError (msg : string).    (* httpx: the request itself failed *)

Inductive result (A : Type) :=
  | Ok (a : A)
  | Raise (e : Exc).
Arguments Ok {A} a.
Arguments Raise {A} e.

Definition result_bind {A B} (r : result A) (k : A → result B) : result B :=
  match r with
  | Ok a => k a
  | Raise e => Raise e
  end.

Notation "'try' x ':=' r 'in' k" := (result_bind r (fun x => k))
  (at level 10, x name, r at level 100, k at level 200).

Definition is_ok {A} (r : result A) : bool :=
  match r with Ok _ => true | Raise _ => false end.

(** A Python [dict] with string keys, in insertion order. *)
Definition dict (V : Type) := list (string * V).

Fixpoint dict_get {V} (d : dict V) (k : string) : option V :=
  match d with
  | [] => None
  | (k', v) :: d' => if String.eqb k' k then Some v else dict_get d' k
  end.

Definition dict_keys {V} (d : dict V) : list string := map fst d.

Definition dict_has {V} (d : dict V) (k : string) : bool :=
  match dict_get d k with Some _ => true | None => false end.

(** ** Markers *)

(** Parameter markers of [combadge.support.http.markers], as the
    integration tests use them: [QueryParam("foobar")], [Header("x-foo")],
    [FormField("barqux")]. *)
Inductive ParameterMarker :=
  | QueryParam (name : string)
  | Header (name : string)
  | FormField (name : string).

(** A response marker; the binder never looks inside one. *)
Record ResponseMarker := { rm_tag : string }.

(** What [Annotated[T, ...]] can carry besides the type. *)
Inductive Metadata :=
  | MetaParameter (marker : ParameterMarker)
  | MetaResponse (marker : ResponseMarker)
  | MetaOther (repr : string).

(** A field of a pydantic model: [field.annotation] is all the binder
    reads. *)
Record ModelField := { field_metadata : list Metadata }.

(** An evaluated annotation. [ann_fields] is the [__fields__] attribute of
    the annotation object: [None] when the object has none (any type that is
    not a pydantic model), the field table otherwise. *)
Record Annotation := {
  ann_name : string;
  ann_fields : option (dict ModelField);
  ann_metadata : list Metadata;
}.

(** Modelled from the spec: [ParameterMarker.extract] of
    [combadge.core.markers] is not among the sources. "Scanning a
    parameter's type-level metadata and returning every attached marker of
    that kind, preserving declaration order; returns an empty sequence if
    none present." *)
Definition extract_parameter_markers (metadata : list Metadata) : list ParameterMarker :=
  omap (fun m => match m with MetaParameter p => Some p | _ => None end) metadata.

(** Modelled from the spec: [ResponseMarker.extract] of
    [combadge.core.markers.response] is not among the sources; same
    contract as above, for response markers. *)
Definition extract_response_markers (metadata : list Metadata) : list ResponseMarker :=
  omap (fun m => match m with MetaResponse r => Some r | _ => None end) metadata.

(** ** Formal parameters and [inspect.Signature.bind]

    [Signature.from_method] stores [get_signature(method).bind] as the
    argument binder.  The function below follows [inspect.Signature._bind]
    of the CPython standard library: a first pass pairs the positional
    arguments with the parameters, a second pass serves the remaining
    parameters from the keyword arguments. *)

Inductive ParameterKind :=
  | POSITIONAL_ONLY
  | POSITIONAL_OR_KEYWORD
  | VAR_POSITIONAL
  | KEYWORD_ONLY
  | VAR_KEYWORD.

Record FormalParameter := {
  param_name : string;
  param_kind : ParameterKind;
  param_default : option Value;     (* [None]: [Parameter.empty] *)
}.

Definition kind_eqb (a b : ParameterKind) : bool :=
  match a, b with
  | POSITIONAL_ONLY, POSITIONAL_ONLY
  | POSITIONAL_OR_KEYWORD, POSITIONAL_OR_KEYWORD
  | VAR_POSITIONAL, VAR_POSITIONAL
  | KEYWORD_ONLY, KEYWORD_ONLY
  | VAR_KEYWORD, VAR_KEYWORD => true
  | _, _ => false
  end.

(** [inspect.BoundArguments]: the signature it was bound against and
    [arguments], parameter name to value in binding order. *)
Record BoundArguments := {
  ba_parameters : list FormalParameter;
  arguments : dict Value;
}.

(** [kwargs.pop(name)]: the value and the dictionary without the key. *)
Fixpoint dict_pop {V} (d : dict V) (k : string) : option (V * dict V) :=
  match d with
  | [] => None
  | (k', v) :: d' =>
      if String.eqb k' k then Some (v, d')
      else match dict_pop d' k with
           | Some (w, d'') => Some (w, (k', v) :: d'')
           | None => None
           end
  end.

(** The [while True] loop over the positional arguments.  It returns the
    arguments bound so far and the parameters the keyword pass still has to
    visit ([parameters_ex] followed by the rest of the iterator). *)
Fixpoint bind_positional (parameters : list FormalParameter) (args : list Value)
    (kwargs : dict Value) (arguments : dict Value)
    : result (dict Value * list FormalParameter) :=
  match args with
  | [] =>
      match parameters with
      | [] => Ok (arguments, [])
      | param :: rest =>
          if kind_eqb (param_kind param) VAR_POSITIONAL then Ok (arguments, rest)
          else if dict_has kwargs (param_name param) then
            if kind_eqb (param_kind param) POSITIONAL_ONLY
            then Raise (TypeError "parameter is positional only, but was passed as a keyword")
            else Ok (arguments, param :: rest)
          else if kind_eqb (param_kind param) VAR_KEYWORD
                  || bool_decide (is_Some (param_default param))
          then Ok (arguments, param :: rest)
          else Raise (TypeError "missing a required argument")
      end
  | arg_val :: args' =>
      match parameters with
      | [] => Raise (TypeError "too many positional arguments")
      | param :: rest =>
          if kind_eqb (param_kind param) VAR_KEYWORD
             || kind_eqb (param_kind param) KEYWORD_ONLY
          then Raise (TypeError "too many positional arguments")
          else if kind_eqb (param_kind param) VAR_POSITIONAL
          then Ok (arguments ++ [(param_name param, VTuple (arg_val :: args'))], rest)
          else if dict_has kwargs (param_name param)
                  && negb (kind_eqb (param_kind param) POSITIONAL_ONLY)
          then Raise (TypeError "multiple values for argument")
          else bind_positional rest args' kwargs
                 (arguments ++ [(param_name param, arg_val)])
      end
  end.

(** The [for param in itertools.chain(parameters_ex, parameters)] loop and
    the final [if kwargs:] test. *)
Fixpoint bind_keywords (parameters : list FormalParameter) (kwargs : dict Value)
    (kwargs_param : option FormalParameter) (arguments : dict Value)
    : result (dict Value) :=
  match parameters with
  | [] =>
      match kwargs with
      | [] => Ok arguments
      | _ :: _ =>
          match kwargs_param with
          | Some p => Ok (arguments ++ [(param_name p, VDict kwargs)])
          | None => Raise (TypeError "got an unexpected keyword argument")
          end
      end
  | param :: rest =>
      if kind_eqb (param_kind param) VAR_KEYWORD
      then bind_keywords rest kwargs (Some param) arguments
      else if kind_eqb (param_kind param) VAR_POSITIONAL
      then bind_keywords rest kwargs kwargs_param arguments
      else match dict_pop kwargs (param_name param) with
           | None =>
               if bool_decide (is_Some (param_default param))
               then bind_keywords rest kwargs kwargs_param arguments
               else Raise (TypeError "missing a required argument")
           | Some (arg_val, kwargs') =>
               if kind_eqb (param_kind param) POSITIONAL_ONLY
               then Raise (TypeError "parameter is positional only, but was passed as a keyword")
               else bind_keywords rest kwargs' kwargs_param
                      (arguments ++ [(param_name param, arg_val)])
           end
  end.

(** [inspect.Signature.bind], given the positional and the keyword
    arguments of the call. *)
Definition signature_bind (parameters : list FormalParameter)
    (args : list Value) (kwargs : dict Value) : result BoundArguments :=
  try st := bind_positional parameters args kwargs [] in
  try bound := bind_keywords (snd st) kwargs None (fst st) in
  Ok {| ba_parameters := parameters; arguments := bound |}.

(** [BoundArguments.apply_defaults()]: every parameter without a bound
    value gets its default, [*args] the empty tuple and [**kwargs] the
    empty dictionary; the arguments come out in parameter order. *)
Definition apply_defaults (bound : BoundArguments) : BoundArguments :=
  {| ba_parameters := ba_parameters bound;
     arguments :=
       omap (fun param =>
               match dict_get (arguments bound) (param_name param) with
               | Some v => Some (param_name param, v)
               | None =>
                   match param_default param with
                   | Some v => Some (param_name param, v)
                   | None =>
                       match param_kind param with
                       | VAR_POSITIONAL => Some (param_name param, VTuple [])
                       | VAR_KEYWORD => Some (param_name param, VDict [])
                       | _ => None
                       end
                   end
               end) (ba_parameters bound) |}.

(** ** The run-time world

    A bound method runs against the objects that exist (backends and bound
    service instances) and leaves an ordered trace of what it asked of the
    backend. *)

(** An [httpx.Response], as far as the backend looks at it. *)
Record Response := {
  status_code : Z;
  content : Value;
}.

(** The arguments of one [AsyncClient.request(...)] call.  The optional
    keywords are [None] when the caller does not pass them. *)
Record ClientRequest := {
  cr_method : string;
  cr_url : string;
  cr_json : option Value;
  cr_params : option (list (string * Value));
  cr_headers : option (list (string * Value));
  cr_data : option (list (string * Value));
}.

(** What [request_with()] returns: an asynchronous context manager.  Its
    [__aexit__] tells whether the exception that left the block is
    swallowed. *)
Record ContextManager := {
  cm_suppresses : Exc → bool;
}.

(** [contextlib.nullcontext] (and the fallback [asyncnullcontext] of the
    backend module): leaves exceptions alone. *)
Definition asyncnullcontext : ContextManager :=
  {| cm_suppresses := fun _ => false |}.

Inductive Object :=
  | BackendObject                       (* an [HttpxBackend] *)
      (_client : ClientRequest → result Response)
      (_request_with : ContextManager)
  | ServiceObject                        (* an instance of a bound class *)
      (class_id : nat)
      (attributes : gmap string Value).

Inductive Event :=
  | EvEnter (backend : nat)                       (* [__aenter__] *)
  | EvRequest (backend : nat) (call : ClientRequest) (* [_client.request] *)
  | EvParse (backend : nat) (response : Response)  (* [_parse_response] *)
  | EvExit (backend : nat).                       (* [__aexit__] *)

Record Runtime := {
  objects : gmap nat Object;
  trace : list Event;
}.

(** Computations that read and extend the world and may raise. *)
Definition Run (A : Type) : Type := Runtime → result A * Runtime.

Definition ret {A} (a : A) : Run A := fun w => (Ok a, w).
Definition raise {A} (e : Exc) : Run A := fun w => (Raise e, w).
Definition lift {A} (r : result A) : Run A := fun w => (r, w).

Definition and_then {A B} (c : Run A) (k : A → Run B) : Run B :=
  fun w => match c w with
           | (Ok a, w') => k a w'
           | (Raise e, w') => (Raise e, w')
           end.

Notation "'let*' x ':=' c 'in' k" := (and_then c (fun x => k))
  (at level 10, x name, c at level 100, k at level 200).

Definition emit (ev : Event) : Run unit :=
  fun w => (Ok tt, {| objects := objects w; trace := trace w ++ [ev] |}).

(** The requests the transport has received, in order. *)
Definition transport_calls (w : Runtime) : list ClientRequest :=
  omap (fun ev => match ev with EvRequest _ c => Some c | _ => None end) (trace w).

(** The responses whose decoding was started, in order. *)
Definition decodings (w : Runtime) : list Response :=
  omap (fun ev => match ev with EvParse _ r => Some r | _ => None end) (trace w).

(** ** Callables, method markers and reflected methods *)

(** A callable that can be installed on a bound class: what calling it
    with the service instance and the call arguments does, and the
    metadata [functools.update_wrapper] copies. *)
Record Callable := {
  call : nat → list Value → dict Value → Run Value;
  fn_name : string;
  fn_doc : string;
}.

(** A method marker; [wrap] is all the binder uses. *)
Record MethodMarker := {
  wrap : Callable → Callable;
}.

(** An annotation as written in the source: under
    [from __future__ import annotations] it is a string that
    [get_annotations(..., eval_str=True)] evaluates, which fails on a name
    that does not resolve. *)
Inductive AnnotationSource :=
  | Evaluates (a : Annotation)
  | Unresolved (name : string).

(** A function as reflection sees it: [__name__], [__doc__], the
    parameters of [inspect.signature], [__annotations__], and the method
    markers its decorators attached. *)
Record PyFunction := {
  fun_name : string;
  fun_doc : string;
  fun_parameters : list FormalParameter;
  fun_annotations : dict AnnotationSource;
  fun_markers : list MethodMarker;
}.

(** What a class namespace can hold under a name. *)
Inductive Member :=
  | PlainFunction (f : PyFunction)
  | ClassMethod (f : PyFunction)
  | StaticMethod (f : PyFunction)
  | DataAttribute (v : Value).

(** What [getattr(cls, name)] hands out. *)
Inductive MemberObject :=
  | FunctionObject (f : PyFunction)
  | BoundMethodObject (f : PyFunction)   (* a classmethod bound to the class *)
  | DataObject (v : Value).

Definition resolve (m : Member) : MemberObject :=
  match m with
  | PlainFunction f | StaticMethod f => FunctionObject f
  | ClassMethod f => BoundMethodObject f
  | DataAttribute v => DataObject v
  end.

Definition callable (o : MemberObject) : bool :=
  match o with
  | FunctionObject _ | BoundMethodObject _ => true
  | DataObject _ => false
  end.

(** [inspect.signature(obj).parameters]: a bound method has lost its first
    parameter. *)
Definition get_signature (o : MemberObject) : list FormalParameter :=
  match o with
  | FunctionObject f => fun_parameters f
  | BoundMethodObject f => tail (fun_parameters f)
  | DataObject _ => []
  end.

Definition underlying (o : MemberObject) : option PyFunction :=
  match o with
  | FunctionObject f | BoundMethodObject f => Some f
  | DataObject _ => None
  end.

(** [get_annotations(obj, eval_str=True)]. *)
Fixpoint eval_annotations (raw : dict AnnotationSource) : result (dict Annotation) :=
  match raw with
  | [] => Ok []
  | (name, Evaluates a) :: raw' =>
      try rest := eval_annotations raw' in Ok ((name, a) :: rest)
  | (_, Unresolved n) :: _ => Raise (NameError n)
  end.

Definition get_annotations (o : MemberObject) : result (dict Annotation) :=
  match underlying o with
  | Some f => eval_annotations (fun_annotations f)
  | None => Raise (TypeError "not a module, class, or callable")
  end.

(** Modelled from the spec: [MethodMarker.ensure_markers] of
    [combadge.core.markers] is not among the sources.  "Collect method-level
    markers attached to the method itself, in declaration order": the list
    the function carries. *)
Definition ensure_markers (o : MemberObject) : list MethodMarker :=
  match underlying o with
  | Some f => fun_markers f
  | None => []
  end.

(** ** [Signature] and [Signature.from_method] *)

Record BoundParameterMarker := {
  bpm_name : string;            (* parameter name *)
  bpm_marker : ParameterMarker;
}.

Record BoundResponseMarkers := {
  brm_name : string;            (* response attribute's name *)
  brm_markers : list ResponseMarker;
}.

Record Signature := {
  bind_arguments : list Value → dict Value → result BoundArguments;
  method_markers : list MethodMarker;
  return_type : Annotation;
  parameter_markers : list BoundParameterMarker;
  response_markers : list BoundResponseMarkers;
}.

(** Modelled from the spec: [combadge.core.response.SuccessfulResponse] is
    not among the sources.  "A generic successful, empty result type": a
    model without fields of its own. *)
Definition SuccessfulResponse : Annotation :=
  {| ann_name := "SuccessfulResponse"; ann_fields := Some []; ann_metadata := [] |}.

(** [Signature._extract_return_type]. *)
Definition _extract_return_type (from_annotations : dict Annotation) : Annotation :=
  default SuccessfulResponse (dict_get from_annotations "return").

(** [Signature._extract_parameter_markers]: the two nested loops. *)
Fixpoint _extract_parameter_markers (from_annotations : dict Annotation)
    : list BoundParameterMarker :=
  match from_annotations with
  | [] => []
  | (name, annotation) :: rest =>
      map (fun marker => {| bpm_name := name; bpm_marker := marker |})
          (extract_parameter_markers (ann_metadata annotation))
      ++ _extract_parameter_markers rest
  end.

(** [getattr(return_type, "__fields__", None) or {}]. *)
Definition fields_or_empty (return_type : Annotation) : dict ModelField :=
  match ann_fields return_type with
  | None => []
  | Some fields => fields
  end.

(** [Signature.from_method]. *)
Definition from_method (method : MemberObject) : result Signature :=
  try type_hints := get_annotations method in
  let return_type := _extract_return_type type_hints in
  let response_markers :=
    map (fun item : string * ModelField =>
           {| brm_name := fst item;
              brm_markers := extract_response_markers (field_metadata (snd item)) |})
        (fields_or_empty return_type) in
  Ok {| bind_arguments := signature_bind (get_signature method);
        method_markers := ensure_markers method;
        parameter_markers := _extract_parameter_markers type_hints;
        return_type := return_type;
        response_markers := response_markers |}.

(** ** Classes and member enumeration *)

(** A class as [inspect.getmembers] sees it: its own namespace and the
    namespaces of the rest of its method resolution order, nearest first.
    [class_abc] tells whether the metaclass is [ABCMeta] (it is for every
    [Protocol]), so that [__abstractmethods__] exists on a subclass. *)
Record Class := {
  class_identity : nat;
  class_name : string;
  class_qualname : string;
  class_dict : dict Member;
  class_ancestors : list (dict Member);
  class_abc : bool;
}.

Definition mro_namespaces (cls : Class) : list (dict Member) :=
  class_dict cls :: class_ancestors cls.

(** [dir(cls)]: every name of every namespace of the MRO, once. *)
Definition dir (cls : Class) : list string :=
  remove_dups (concat (map dict_keys (mro_namespaces cls))).

Fixpoint lookup_mro (namespaces : list (dict Member)) (name : string) : option Member :=
  match namespaces with
  | [] => None
  | namespace :: rest =>
      match dict_get namespace name with
      | Some m => Some m
      | None => lookup_mro rest name
      end
  end.

(** [getattr(cls, name)]. *)
Definition getattr (cls : Class) (name : string) : option MemberObject :=
  resolve <$> lookup_mro (mro_namespaces cls) name.

Definition by_name (a b : string * MemberObject) : Prop :=
  String.leb (fst a) (fst b) = true.

#[global] Instance by_name_dec a b : Decision (by_name a b).
Proof. unfold by_name. apply _. Defined.

(** [inspect.getmembers(cls, predicate)]: the (name, value) pairs of the
    members that satisfy the predicate, sorted by name. *)
Definition get_members (cls : Class) (predicate : MemberObject → bool)
    : list (string * MemberObject) :=
  merge_sort by_name
    (omap (fun name =>
             match getattr cls name with
             | Some value => if predicate value then Some (name, value) else None
             | None => None
             end)
          (dir cls)).

(** The loop of [_enumerate_methods], over the members already listed. *)
Fixpoint enumerate_members (members : list (string * MemberObject))
    : list (string * MemberObject) :=
  match members with
  | [] => []
  | (name, method) :: rest =>
      if String.prefix "_" name then enumerate_members rest
      else
        let parameters := get_signature method in
        if negb (bool_decide ("self" ∈ map param_name parameters))
        then enumerate_members rest
        else (name, method) :: enumerate_members rest
  end.

(** [_enumerate_methods]. *)
Definition _enumerate_methods (of_protocol : Class) : list (string * MemberObject) :=
  enumerate_members (get_members of_protocol callable).

(** ** Building the bound class *)

(** [_wrap]. *)
Fixpoint _wrap (method : Callable) (with_marks : list MethodMarker) : Callable :=
  match with_marks with
  | [] => method
  | mark :: rest => _wrap (wrap mark method) rest
  end.

(** [functools.update_wrapper(wrapper, wrapped)]: the wrapper takes over
    the name and the docstring of the wrapped function. *)
Definition update_wrapper (wrapper : Callable) (wrapped : MemberObject) : Callable :=
  match underlying wrapped with
  | Some f => {| call := call wrapper; fn_name := fun_name f; fn_doc := fun_doc f |}
  | None => wrapper
  end.

(** A class made by [bind_class].  [bound_identity] stands for the identity
    of the class object: two bound classes are the same object exactly when
    the identities agree.  [bound_dict] holds what [setattr] installed;
    [bound_abstractmethods] tells whether the class namespace has an
    [__abstractmethods__] entry ([ABCMeta] makes one for every new class). *)
Record BoundClass := {
  bound_identity : nat;
  bound_name : string;
  bound_qualname : string;
  bound_protocol : Class;
  bound_dict : dict Callable;
  bound_abstractmethods : bool;
}.

(** [setattr(cls, name, value)] on the class namespace. *)
Fixpoint dict_set {V} (d : dict V) (k : string) (v : V) : dict V :=
  match d with
  | [] => [(k, v)]
  | (k', v') :: d' =>
      if String.eqb k' k then (k, v) :: d' else (k', v') :: dict_set d' k v
  end.

(** [_update_bound_service]. *)
Definition _update_bound_service (service_class : BoundClass) (with_protocol : Class)
    : result BoundClass :=
  if negb (bound_abstractmethods service_class)
  then Raise (AttributeError "__abstractmethods__")
  else
      Ok {| bound_identity := bound_identity service_class;
            bound_name := bound_name service_class +:+ "[" +:+ class_name with_protocol +:+ "]";
            bound_qualname :=
              bound_qualname service_class +:+ "[" +:+ class_qualname with_protocol +:+ "]";
            bound_protocol := bound_protocol service_class;
            bound_dict := bound_dict service_class;
            bound_abstractmethods := false |}.

(** A method binder: a function from signatures to callables, and the
    identity under which [lru_cache] hashes and compares it. *)
Record MethodBinder := {
  binder_identity : nat;
  binder_call : Signature → Callable;
}.

(** The [for name, method in _enumerate_methods(from_protocol)] loop of
    [bind_class]. *)
Fixpoint install_methods (method_binder : MethodBinder)
    (methods : list (string * MemberObject)) (namespace : dict Callable)
    : result (dict Callable) :=
  match methods with
  | [] => Ok namespace
  | (name, method) :: rest =>
      try signature := from_method method in
      let bound_method := binder_call method_binder signature in
      let bound_method := _wrap bound_method (method_markers signature) in
      let bound_method := update_wrapper bound_method method in
      install_methods method_binder rest (dict_set namespace name bound_method)
  end.

(** What the claim about marker order says [bind_class] installs under the
    name of a method: the binder's callable, wrapped by a left fold over the
    method markers, with the metadata of the method. *)
Definition installed (method_binder : MethodBinder) (method : MemberObject)
    (signature : Signature) : Callable :=
  update_wrapper
    (fold_left (fun m mark => wrap mark m) (method_markers signature)
               (binder_call method_binder signature))
    method.

(** The body of [bind_class], given the identity of the class object the
    [class] statement creates. *)
Definition bind_class_body (identity : nat) (from_protocol : Class)
    (method_binder : MethodBinder) : result BoundClass :=
  try namespace := install_methods method_binder (_enumerate_methods from_protocol) [] in
  _update_bound_service
    {| bound_identity := identity;
       bound_name := "BoundService";
       bound_qualname := "bind_class.<locals>.BoundService";
       bound_protocol := from_protocol;
       bound_dict := namespace;
       bound_abstractmethods := class_abc from_protocol |}
    from_protocol.

(** ** [functools.lru_cache(maxsize=100)] around [bind_class] *)

(** The state of binding: the cache, oldest entry first, and the next
    unused class identity. *)
Record BindState := {
  cache : list ((nat * nat) * BoundClass);
  next_identity : nat;
}.

Definition initial_bind_state : BindState :=
  {| cache := []; next_identity := 0 |}.

Definition maxsize : nat := 100.
Arguments maxsize : simpl never.

(** [_make_key] for a call with two positional arguments: the pair of the
    arguments, hashed and compared as Python does for a class (by
    identity) and for the binder. *)
Definition make_key (from_protocol : Class) (method_binder : MethodBinder) : nat * nat :=
  (class_identity from_protocol, binder_identity method_binder).

Definition key_eqb (a b : nat * nat) : bool :=
  Nat.eqb (fst a) (fst b) && Nat.eqb (snd a) (snd b).

Fixpoint cache_get (entries : list ((nat * nat) * BoundClass)) (key : nat * nat)
    : option BoundClass :=
  match entries with
  | [] => None
  | (k, v) :: rest => if key_eqb k key then Some v else cache_get rest key
  end.

Fixpoint cache_remove (entries : list ((nat * nat) * BoundClass)) (key : nat * nat)
    : list ((nat * nat) * BoundClass) :=
  match entries with
  | [] => []
  | (k, v) :: rest =>
      if key_eqb k key then rest else (k, v) :: cache_remove rest key
  end.

(** [bind_class], as decorated: a hit moves the entry to the recent end and
    returns the cached class; a miss runs the body and stores the result,
    evicting the oldest entry when the cache is full.  An exception of the
    body leaves the cache as it was. *)
Definition bind_class (from_protocol : Class) (method_binder : MethodBinder)
    (st : BindState) : result BoundClass * BindState :=
  let key := make_key from_protocol method_binder in
  match cache_get (cache st) key with
  | Some cls =>
      (Ok cls,
       {| cache := cache_remove (cache st) key ++ [(key, cls)];
          next_identity := next_identity st |})
  | None =>
      match bind_class_body (next_identity st) from_protocol method_binder with
      | Raise e =>
          (Raise e, {| cache := cache st; next_identity := S (next_identity st) |})
      | Ok cls =>
          let kept :=
            if Nat.leb maxsize (length (cache st)) then tail (cache st) else cache st in
          (Ok cls,
           {| cache := kept ++ [(key, cls)]; next_identity := S (next_identity st) |})
      end
  end.

(** ** [BaseBoundService] and [bind] *)

(** The whole engine: what has been bound and the run-time world. *)
Record Engine := {
  binding : BindState;
  world : Runtime;
}.

(** A backend in its role of [ProvidesBinder]: the object and the [binder]
    attribute read from it. *)
Record ProvidesBinder := {
  backend_ref : nat;
  binder : MethodBinder;
}.

(** [BaseBoundService.__init__]: [self.backend = backend] on a new
    instance.  The instance gets the first unused location. *)
Definition BaseBoundService_init (cls : BoundClass) (backend : nat) (w : Runtime)
    : nat * Runtime :=
  let self := fresh (dom (objects w)) in
  (self,
   {| objects :=
        <[self := ServiceObject (bound_identity cls) {["backend" := VRef backend]}]>
          (objects w);
      trace := trace w |}).

(** [bind]. *)
Definition bind (from_protocol : Class) (to_backend : ProvidesBinder) (e : Engine)
    : result nat * Engine :=
  match bind_class from_protocol (binder to_backend) (binding e) with
  | (Raise exc, st) => (Raise exc, {| binding := st; world := world e |})
  | (Ok cls, st) =>
      let '(self, w) := BaseBoundService_init cls (backend_ref to_backend) (world e) in
      (Ok self, {| binding := st; world := w |})
  end.

(** ** Requests *)

(** Modelled from the spec: [combadge.support.rest.request.Request] is not
    among the sources.  The backend reads [method], [path], [json_dict()]
    and [query_params] from it; the header and form-field markers of the
    tests need a place each.  Every multi-valued location is a list of
    (name, value) pairs in the order the values were placed. *)
Record Request := {
  method : string;
  path : string;
  json_dict : option Value;
  query_params : list (string * Value);
  headers : list (string * Value);
  form_data : list (string * Value);
}.

Definition empty_request : Request :=
  {| method := ""; path := ""; json_dict := None;
     query_params := []; headers := []; form_data := [] |}.

(** Modelled from the spec: the [apply] of a parameter marker (the marker
    classes are not among the sources).  "If two parameter markers target
    the same request location, their effects must accumulate into a
    multi-valued slot rather than overwrite": the value is appended under
    the marker's name. *)
Definition apply_marker (marker : ParameterMarker) (request : Request) (value : Value)
    : Request :=
  match marker with
  | QueryParam name =>
      {| method := method request; path := path request;
         json_dict := json_dict request;
         query_params := query_params request ++ [(name, value)];
         headers := headers request; form_data := form_data request |}
  | Header name =>
      {| method := method request; path := path request;
         json_dict := json_dict request;
         query_params := query_params request;
         headers := headers request ++ [(name, value)];
         form_data := form_data request |}
  | FormField name =>
      {| method := method request; path := path request;
         json_dict := json_dict request;
         query_params := query_params request;
         headers := headers request;
         form_data := form_data request ++ [(name, value)] |}
  end.

(** One step of the marker loop: the marker of a parameter that has a
    value places it, the marker of a parameter without one is skipped. *)
Definition place (all_arguments : dict Value) (request : Request)
    (bound_marker : BoundParameterMarker) : Request :=
  match dict_get all_arguments (bpm_name bound_marker) with
  | Some value => apply_marker (bpm_marker bound_marker) request value
  | None => request
  end.

(** Modelled from the spec: [combadge.core.request.build_request] is not
    among the sources.  "Uses the Signature's argument-binder to resolve
    named parameter values; constructs an empty outgoing request
    representation; applies every parameter marker (in the Signature's
    parameter-marker list order) to place its resolved argument value into
    the request", a declared default standing in for an omitted argument.
    The service instance is bound as the receiver. *)
Definition build_request (signature : Signature) (service : nat)
    (args : list Value) (kwargs : dict Value) : result Request :=
  try bound_arguments := bind_arguments signature (VRef service :: args) kwargs in
  let all_arguments := arguments (apply_defaults bound_arguments) in
  Ok (fold_left (place all_arguments) (parameter_markers signature) empty_request).

(** The values a multi-valued location holds under a name, in order. *)
Definition values_under (name : string) (slot : list (string * Value)) : list Value :=
  omap (fun item : string * Value =>
          if String.eqb (fst item) name then Some (snd item) else None) slot.

(** ** The asynchronous HTTPX backend *)

Definition ResponseExtractors := list (string * (Response → Value)).

(** The two methods [HttpxBackend] inherits from [BaseHttpxBackend], which
    is not among the sources; they are taken as given. *)
Record BaseHttpxBackend := {
  _parse_response : Response → Annotation → ResponseExtractors → result Value;
  _build_response_extractors : list BoundResponseMarkers → ResponseExtractors;
}.

(** [httpx.Response.is_success]: a 2xx status. *)
Definition is_success (response : Response) : bool :=
  Z.leb 200 (status_code response) && Z.leb (status_code response) 299.

(** [httpx.Response.raise_for_status]. *)
Definition raise_for_status (response : Response) : Run unit :=
  if is_success response then ret tt
  else raise (HTTPStatusError (status_code response)).

(** Reading a backend object. *)
Definition get_backend (ref : nat) : Run ((ClientRequest → result Response) * ContextManager) :=
  fun w => match objects w !! ref with
           | Some (BackendObject client request_with) => (Ok (client, request_with), w)
           | _ => (Raise (AttributeError "_client"), w)
           end.

(** [service.backend]. *)
Definition get_backend_attribute (service : nat) : Run nat :=
  fun w => match objects w !! service with
           | Some (ServiceObject _ attributes) =>
               match attributes !! "backend" with
               | Some (VRef backend) => (Ok backend, w)
               | _ => (Raise (AttributeError "backend"), w)
               end
           | _ => (Raise (AttributeError "backend"), w)
           end.

(** What [__call__] passes to [self._client.request]: the method and the
    path positionally, [json=request.json_dict()] and
    [params=request.query_params]; no other keyword. *)
Definition request_arguments (request : Request) : ClientRequest :=
  {| cr_method := method request;
     cr_url := path request;
     cr_json := json_dict request;
     cr_params := Some (query_params request);
     cr_headers := None;
     cr_data := None |}.

(** [HttpxBackend.__call__]. *)
Definition HttpxBackend_call (base : BaseHttpxBackend) (self : nat) (request : Request)
    (response_type : Annotation) (response_extractors : ResponseExtractors) : Run Value :=
  let* backend := get_backend self in
  let* _ := emit (EvRequest self (request_arguments request)) in
  let* response := lift (fst backend (request_arguments request)) in
  let* _ := raise_for_status response in
  let* _ := emit (EvParse self response) in
  lift (_parse_response base response response_type response_extractors).

(** [async with cm: return body]: the manager is left on every path; when
    it swallows the exception, the function falls off its end and returns
    [None]. *)
Definition async_with (backend : nat) (cm : ContextManager) (body : Run Value) : Run Value :=
  let* _ := emit (EvEnter backend) in
  fun w =>
    match body w with
    | (Ok v, w') => (Ok v, snd (emit (EvExit backend) w'))
    | (Raise e, w') =>
        (if cm_suppresses cm e then Ok VNone else Raise e,
         snd (emit (EvExit backend) w'))
    end.

(** The closure [bound_method] that [HttpxBackend.bind_method] returns. *)
Definition bound_method (base : BaseHttpxBackend) (signature : Signature)
    (response_extractors : ResponseExtractors)
    (service : nat) (args : list Value) (kwargs : dict Value) : Run Value :=
  let* request := lift (build_request signature service args kwargs) in
  let* backend := get_backend_attribute service in
  let* manager := get_backend backend in
  async_with backend (snd manager)
    (HttpxBackend_call base backend request (return_type signature) response_extractors).

(** [HttpxBackend.bind_method].  The backend reads the response part of the
    signature under the name [response_descriptors]; it is the
    [response_markers] list of the binder's [Signature]. *)
Definition bind_method (base : BaseHttpxBackend) (signature : Signature) : Callable :=
  let response_extractors := _build_response_extractors base (response_markers signature) in
  {| call := bound_method base signature response_extractors;
     fn_name := "bound_method";
     fn_doc := "" |}.

(** [binder = bind_method]: the binder of every [HttpxBackend]. *)
Definition HttpxBackend_binder (base : BaseHttpxBackend) (identity : nat) : MethodBinder :=
  {| binder_identity := identity; binder_call := bind_method base |}.

(** Running a sequence of [bind_class] calls, results dropped. *)
Fixpoint bind_classes (calls : list (Class * MethodBinder)) (st : BindState) : BindState :=
  match calls with
  | [] => st
  | (from_protocol, method_binder) :: rest =>
      bind_classes rest (snd (bind_class from_protocol method_binder st))
  end.

(** The cache keys a sequence of calls uses besides [key], each once. *)
Definition other_keys (key : nat * nat) (calls : list (Class * MethodBinder))
    : list (nat * nat) :=
  remove_dups
    (filter (fun k => k ≠ key)
            (map (fun c : Class * MethodBinder => make_key (fst c) (snd c)) calls)).

(** The cache is well formed: no key twice, never more than [maxsize]
    entries. *)
Definition cache_ok (st : BindState) : Prop :=
  NoDup (map fst (cache st)) ∧ (length (cache st) ≤ maxsize)%nat.

(** The cache holds [cls] under [key], and every entry used more recently
    has its key in [universe]. *)
Definition retains (key : nat * nat) (cls : BoundClass) (universe : list (nat * nat))
    (st : BindState) : Prop :=
  cache_ok st
  ∧ ∃ older newer,
      cache st = older ++ (key, cls) :: newer
      ∧ ∀ k, k ∈ map fst newer → k ∈ universe.

(** The identity of the class a [bind_class] call returned. *)
Definition identity_of (r : result BoundClass) : option nat :=
  match r with
  | Ok cls => Some (bound_identity cls)
  | Raise _ => None
  end.

(** The class of the instance at a location. *)
Definition class_of (w : Runtime) (service : nat) : option nat :=
  match objects w !! service with
  | Some (ServiceObject class_id _) => Some class_id
  | _ => None
  end.

(** The attributes of the instance at a location. *)
Definition attributes_of (w : Runtime) (service : nat) : option (gmap string Value) :=
  match objects w !! service with
  | Some (ServiceObject _ attributes) => Some attributes
  | _ => None
  end.

(** ** Vocabulary of the properties *)

(** The multi-valued locations of a request. *)
Inductive Location := InQuery | InHeaders | InForm.

Definition slot (location : Location) (request : Request) : list (string * Value) :=
  match location with
  | InQuery => query_params request
  | InHeaders => headers request
  | InForm => form_data request
  end.

Definition target (marker : ParameterMarker) : Location * string :=
  match marker with
  | QueryParam name => (InQuery, name)
  | Header name => (InHeaders, name)
  | FormField name => (InForm, name)
  end.

Definition location_eqb (a b : Location) : bool :=
  match a, b with
  | InQuery, InQuery | InHeaders, InHeaders | InForm, InForm => true
  | _, _ => false
  end.

(** Whether a bound marker places its value under [name] of [location]. *)
Definition targets (location : Location) (name : string)
    (bound_marker : BoundParameterMarker) : bool :=
  location_eqb (fst (target (bpm_marker bound_marker))) location
  && String.eqb (snd (target (bpm_marker bound_marker))) name.

(** A keyword argument that no parameter can take. *)
Definition unknown_keyword (parameters : list FormalParameter) (kwargs : dict Value) : Prop :=
  (∀ p, p ∈ parameters → param_kind p ≠ VAR_KEYWORD)
  ∧ ∃ k, k ∈ dict_keys kwargs ∧ k ∉ map param_name parameters.

Definition positional (p : FormalParameter) : bool :=
  kind_eqb (param_kind p) POSITIONAL_ONLY || kind_eqb (param_kind p) POSITIONAL_OR_KEYWORD.

(** More positional arguments than parameters that take one. *)
Definition too_many_positional (parameters : list FormalParameter) (args : list Value) : Prop :=
  (∀ p, p ∈ parameters → param_kind p ≠ VAR_POSITIONAL)
  ∧ (length (filter (fun p => positional p = true) parameters) < length args)%nat.

(** A parameter without default that gets neither a positional nor a
    keyword argument. *)
Definition missing_required (parameters : list FormalParameter)
    (args : list Value) (kwargs : dict Value) : Prop :=
  ∃ (i : nat) (p : FormalParameter),
    parameters !! i = Some p
    ∧ (length args ≤ i)%nat
    ∧ param_kind p ≠ VAR_POSITIONAL
    ∧ param_kind p ≠ VAR_KEYWORD
    ∧ param_default p = None
    ∧ param_name p ∉ dict_keys kwargs.

(** Every bound service instance of the world holds the backend reference
    and nothing else. *)
Definition holds_only_backend (w : Runtime) : Prop :=
  ∀ loc class_id attributes,
    objects w !! loc = Some (ServiceObject class_id attributes) →
    ∃ backend, attributes = {["backend" := VRef backend]}.

(** The operations of the engine: binding a class, binding an instance,
    and calling a method the backend bound. *)
Inductive step (base : BaseHttpxBackend) : Engine → Engine → Prop :=
  | step_bind_class from_protocol method_binder e :
      step base e
        {| binding := snd (bind_class from_protocol method_binder (binding e));
           world := world e |}
  | step_bind from_protocol to_backend e :
      step base e (snd (bind from_protocol to_backend e))
  | step_call signature service args kwargs e :
      step base e
        {| binding := binding e;
           world := snd (call (bind_method base signature) service args kwargs (world e)) |}.

(** ** The interfaces of the integration tests *)

Module Httpbin.

Definition self_parameter : FormalParameter :=
  {| param_name := "self"; param_kind := POSITIONAL_OR_KEYWORD; param_default := None |}.

Definition required (name : string) : FormalParameter :=
  {| param_name := name; param_kind := POSITIONAL_OR_KEYWORD; param_default := None |}.

Definition optional (name : string) (value : Value) : FormalParameter :=
  {| param_name := name; param_kind := POSITIONAL_OR_KEYWORD;
     param_default := Some value |}.

Definition annotated (name : string) (marker : ParameterMarker) : AnnotationSource :=
  Evaluates {| ann_name := name; ann_fields := None;
               ann_metadata := [MetaParameter marker] |}.

(** [class Response(BaseModel): args: Dict[str, Any]]. *)
Definition ArgsResponse : Annotation :=
  {| ann_name := "Response";
     ann_fields := Some [("args", {| field_metadata := [] |})];
     ann_metadata := [] |}.

(** [class Response(BaseModel): headers: Dict[str, Any]]. *)
Definition HeadersResponse : Annotation :=
  {| ann_name := "Response";
     ann_fields := Some [("headers", {| field_metadata := [] |})];
     ann_metadata := [] |}.

(** [get_anything] of [test_query_params]. *)
Definition get_anything : PyFunction :=
  {| fun_name := "get_anything"; fun_doc := "";
     fun_parameters := [self_parameter; required "foo"; required "bar"];
     fun_annotations :=
       [("foo", annotated "int" (QueryParam "foobar"));
        ("bar", annotated "int" (QueryParam "foobar"));
        ("return", Evaluates ArgsResponse)];
     fun_markers := [] |}.

(** [get_headers] of [test_headers_async], without the parameter whose
    default is a function. *)
Definition get_headers : PyFunction :=
  {| fun_name := "get_headers"; fun_doc := "";
     fun_parameters :=
       [self_parameter; required "foo"; optional "bar" (VStr "barval")];
     fun_annotations :=
       [("foo", annotated "str" (Header "x-foo"));
        ("bar", annotated "str" (Header "x-bar"));
        ("return", Evaluates HeadersResponse)];
     fun_markers := [] |}.

(** A method whose return annotation is a plain type. *)
Definition get_status : PyFunction :=
  {| fun_name := "get_status"; fun_doc := "";
     fun_parameters := [self_parameter];
     fun_annotations :=
       [("return", Evaluates {| ann_name := "int"; ann_fields := None;
                                ann_metadata := [] |})];
     fun_markers := [] |}.

(** [SupportsService.bind], a classmethod every protocol inherits. *)
Definition SupportsService_bind : PyFunction :=
  {| fun_name := "bind"; fun_doc := "";
     fun_parameters := [required "cls"; required "to_backend"];
     fun_annotations := [];
     fun_markers := [] |}.

Definition SupportsService_dict : dict Member :=
  [("bind", ClassMethod SupportsService_bind)].

(** [class SupportsHttpbin(SupportsService, Protocol)]. *)
Definition SupportsHttpbin : Class :=
  {| class_identity := 1;
     class_name := "SupportsHttpbin";
     class_qualname := "SupportsHttpbin";
     class_dict :=
       [("get_anything", PlainFunction get_anything);
        ("get_headers", PlainFunction get_headers);
        ("__doc__", DataAttribute VNone)];
     class_ancestors := [SupportsService_dict];
     class_abc := true |}.

(** [class SupportsMore(SupportsHttpbin, Protocol)]: a protocol that
    extends another one and adds a method and a private helper. *)
Definition SupportsMore : Class :=
  {| class_identity := 2;
     class_name := "SupportsMore";
     class_qualname := "SupportsMore";
     class_dict :=
       [("get_status", PlainFunction get_status);
        ("_helper", PlainFunction get_status)];
     class_ancestors := [class_dict SupportsHttpbin; SupportsService_dict];
     class_abc := true |}.

(** A backend that answers like httpbin: it echoes what it was sent. *)
Definition httpbin (c : ClientRequest) : result Response :=
  Ok {| status_code := 200;
        content :=
          VDict [("args", VDict (default [] (cr_params c)));
                 ("headers", VDict (default [] (cr_headers c)))] |}.

(** A backend whose server answers 500 to everything. *)
Definition failing (c : ClientRequest) : result Response :=
  Ok {| status_code := 500; content := VNone |}.

(** A backend whose connection fails. *)
Definition unreachable (c : ClientRequest) : result Response :=
  Raise (TransportError "connection refused").

Definition base : BaseHttpxBackend :=
  {| _parse_response := fun response _ _ => Ok (content response);
     _build_response_extractors := fun _ => [] |}.

(** A world with one backend with the given client, at location 0, and
    one bound service instance for it, at location 1. *)
Definition world_with (client : ClientRequest → result Response) : Runtime :=
  {| objects :=
       <[1 := ServiceObject 0 {["backend" := VRef 0]}]>
         (<[0 := BackendObject client asyncnullcontext]> ∅);
     trace := [] |}.

Definition backend : ProvidesBinder :=
  {| backend_ref := 0; binder := HttpxBackend_binder base 7 |}.

(** An engine that has bound nothing yet, with the echoing backend at
    location 0. *)
Definition engine : Engine :=
  {| binding := initial_bind_state;
     world := {| objects := {[0 := BackendObject httpbin asyncnullcontext]};
                 trace := [] |} |}.

(** The signature of [get_status], written out. *)
Definition get_status_signature : Signature :=
  {| bind_arguments := signature_bind [self_parameter];
     method_markers := [];
     return_type := {| ann_name := "int"; ann_fields := None; ann_metadata := [] |};
     parameter_markers := [];
     response_markers := [] |}.

(** A protocol without methods, one for every identity. *)
Definition numbered (identity : nat) : Class :=
  {| class_identity := identity; class_name := "P"; class_qualname := "P";
     class_dict := []; class_ancestors := []; class_abc := true |}.

(** A method marker that tags the result of the call it wraps. *)
Definition tagging (tag : string) : MethodMarker :=
  {| wrap := fun inner =>
       {| call := fun service args kwargs =>
            let* v := call inner service args kwargs in
            ret (VTuple [VStr tag; v]);
          fn_name := fn_name inner; fn_doc := fn_doc inner |} |}.

End Httpbin.

(** ** Further vocabulary *)

(** [HttpxBackend.__init__]: a new backend object holding the client and
    the [request_with] getter, [asyncnullcontext] when none is given. *)
Definition HttpxBackend_init (client : ClientRequest → result Response)
    (request_with : option ContextManager) (w : Runtime) : nat * Runtime :=
  let self := fresh (dom (objects w)) in
  (self,
   {| objects :=
        <[self := BackendObject client (default asyncnullcontext request_with)]>
          (objects w);
      trace := trace w |}).

(** What [__call__] returns or raises for a request, given what the client
    answers. *)
Definition transport_result (base : BaseHttpxBackend)
    (client : ClientRequest → result Response) (request : Request)
    (response_type : Annotation) (response_extractors : ResponseExtractors)
    : result Value :=
  match client (request_arguments request) with
  | Raise e => Raise e
  | Ok response =>
      if is_success response
      then _parse_response base response response_type response_extractors
      else Raise (HTTPStatusError (status_code response))
  end.

(** The response [__call__] starts to decode, if any. *)
Definition decoded (client : ClientRequest → result Response) (request : Request)
    : option Response :=
  match client (request_arguments request) with
  | Ok response => if is_success response then Some response else None
  | Raise _ => None
  end.

(** What leaves an [async with] block whose body ended with [r]. *)
Definition after_exit (cm : ContextManager) (r : result Value) : result Value :=
  match r with
  | Ok v => Ok v
  | Raise e => if cm_suppresses cm e then Ok VNone else Raise e
  end.

(** The events of one complete call of a bound method. *)
Definition call_events (backend : nat) (request : Request) (parsed : option Response)
    : list Event :=
  [EvEnter backend; EvRequest backend (request_arguments request)]
  ++ match parsed with Some response => [EvParse backend response] | None => [] end
  ++ [EvExit backend].

(** The identities of the cached classes are pairwise different and below
    the next unused one. *)
Definition identities_ok (st : BindState) : Prop :=
  NoDup (map (fun entry => bound_identity (snd entry)) (cache st))
  ∧ ∀ entry, entry ∈ cache st → (bound_identity (snd entry) < next_identity st)%nat.

(** A class that the body of [bind_class] built for the key. *)
Definition built_for (key : nat * nat) (cls : BoundClass) : Prop :=
  ∃ identity from_protocol method_binder,
    make_key from_protocol method_binder = key
    ∧ bind_class_body identity from_protocol method_binder = Ok cls.

(** Whether a piece of metadata is a response marker. *)
Definition is_response (m : Metadata) : bool :=
  match m with
  | MetaResponse _ => true
  | _ => false
  end.

(** An annotation that evaluates. *)
Definition evaluates (item : string * AnnotationSource) : Prop :=
  ∃ a, snd item = Evaluates a.

Module Samples.

(** A method whose second annotation names something that does not
    exist. *)
Definition get_broken : PyFunction :=
  {| fun_name := "get_broken"; fun_doc := "";
     fun_parameters := [Httpbin.self_parameter; Httpbin.required "foo"];
     fun_annotations :=
       [("foo", Httpbin.annotated "int" (QueryParam "foo"));
        ("return", Unresolved "Respnse")];
     fun_markers := [] |}.

(** A documented method with one parameter that carries two markers. *)
Definition search : PyFunction :=
  {| fun_name := "search"; fun_doc := "Search the index.";
     fun_parameters := [Httpbin.self_parameter; Httpbin.required "term"];
     fun_annotations :=
       [("term",
         Evaluates {| ann_name := "str"; ann_fields := None;
                      ann_metadata := [MetaParameter (QueryParam "q");
                                       MetaOther "doc";
                                       MetaParameter (Header "x-term")] |})];
     fun_markers := [Httpbin.tagging "outer"] |}.

(** [class SupportsSearch(SupportsHttpbin, Protocol)]: overrides
    [get_headers] with [search] and adds a broken method. *)
Definition SupportsSearch : Class :=
  {| class_identity := 3;
     class_name := "SupportsSearch";
     class_qualname := "tests.SupportsSearch";
     class_dict := [("search", PlainFunction search);
                    ("get_headers", PlainFunction search)];
     class_ancestors := [class_dict Httpbin.SupportsHttpbin; Httpbin.SupportsService_dict];
     class_abc := true |}.

Definition SupportsBroken : Class :=
  {| class_identity := 4;
     class_name := "SupportsBroken";
     class_qualname := "SupportsBroken";
     class_dict := [("get_broken", PlainFunction get_broken)];
     class_ancestors := [Httpbin.SupportsService_dict];
     class_abc := true |}.

(** A class that is not abstract: its metaclass is plain [type]. *)
Definition Plain : Class :=
  {| class_identity := 5; class_name := "Plain"; class_qualname := "Plain";
     class_dict := []; class_ancestors := []; class_abc := false |}.

(** A context manager that swallows every exception. *)
Definition swallowing : ContextManager := {| cm_suppresses := fun _ => true |}.

End Samples.

(** * Properties *)

(** ** Dictionaries *)

Lemma dict_get_Some_keys {V} (d : dict V) (k : string) (v : V) :
  dict_get d k = Some v → k ∈ dict_keys d.
Proof.
  induction d as [|[k' v'] d IH]; simpl; [discriminate|].
  destruct (String.eqb_spec k' k) as [->|Hne]; intros H.
  - apply list_elem_of_here.
  - apply list_elem_of_further, IH, H.
Qed.

Lemma dict_get_None_keys {V} (d : dict V) (k : string) :
  dict_get d k = None ↔ k ∉ dict_keys d.
Proof.
  induction d as [|[k' v'] d IH]; simpl.
  - split; [intros _; apply not_elem_of_nil | done].
  - destruct (String.eqb_spec k' k) as [->|Hne].
    + split; [discriminate | intros H; destruct H; apply list_elem_of_here].
    + rewrite IH, not_elem_of_cons. split; [intros H; split; [congruence | exact H] | intros [_ H]; exact H].
Qed.

Lemma dict_get_set_eq {V} (d : dict V) (k : string) (v : V) :
  dict_get (dict_set d k v) k = Some v.
Proof.
  induction d as [|[k' v'] d IH]; simpl.
  - by rewrite String.eqb_refl.
  - destruct (String.eqb_spec k' k) as [->|Hne]; simpl.
    + by rewrite String.eqb_refl.
    + destruct (String.eqb_spec k' k); [done | apply IH].
Qed.

Lemma dict_get_set_ne {V} (d : dict V) (k k0 : string) (v : V) :
  k ≠ k0 → dict_get (dict_set d k v) k0 = dict_get d k0.
Proof.
  intros Hne. induction d as [|[k' v'] d IH]; simpl.
  - destruct (String.eqb_spec k k0); [done | reflexivity].
  - destruct (String.eqb_spec k' k) as [->|Hne']; simpl.
    + destruct (String.eqb_spec k k0); [done | reflexivity].
    + destruct (String.eqb_spec k' k0); [reflexivity | apply IH].
Qed.

Lemma dict_keys_set_fresh {V} (d : dict V) (k : string) (v : V) :
  k ∉ dict_keys d → dict_keys (dict_set d k v) = dict_keys d ++ [k].
Proof.
  induction d as [|[k' v'] d IH]; simpl; [done|].
  rewrite not_elem_of_cons. intros [Hne Hnot].
  destruct (String.eqb_spec k' k) as [->|_]; [done|].
  simpl. f_equal. by apply IH.
Qed.

(** ** Marker extraction *)

Lemma extract_response_markers_spec (metadata : list Metadata) (r : ResponseMarker) :
  r ∈ extract_response_markers metadata ↔ MetaResponse r ∈ metadata.
Proof.
  unfold extract_response_markers. rewrite list_elem_of_omap. split.
  - intros (m & Hin & Hm). destruct m; simplify_eq. done.
  - intros Hin. exists (MetaResponse r). done.
Qed.

Lemma extract_response_markers_nil (metadata : list Metadata) :
  extract_response_markers metadata = [] ↔ ∀ r, MetaResponse r ∉ metadata.
Proof.
  split.
  - intros Hnil r Hin. apply extract_response_markers_spec in Hin.
    rewrite Hnil in Hin. by apply not_elem_of_nil in Hin.
  - intros Hno. destruct (extract_response_markers metadata) as [|r l] eqn:E; [done|].
    exfalso. apply (Hno r), extract_response_markers_spec. rewrite E. apply list_elem_of_here.
Qed.

(** ** [Signature.from_method] *)

Lemma from_method_Ok (method : MemberObject) (signature : Signature) :
  from_method method = Ok signature →
  ∃ type_hints,
    get_annotations method = Ok type_hints
    ∧ return_type signature = _extract_return_type type_hints
    ∧ parameter_markers signature = _extract_parameter_markers type_hints
    ∧ method_markers signature = ensure_markers method
    ∧ bind_arguments signature = signature_bind (get_signature method)
    ∧ response_markers signature =
        map (fun item : string * ModelField =>
               {| brm_name := fst item;
                  brm_markers := extract_response_markers (field_metadata (snd item)) |})
            (fields_or_empty (return_type signature)).
Proof.
  unfold from_method. destruct (get_annotations method) as [type_hints|e]; simpl; [|done].
  intros [= <-]. exists type_hints. simpl. done.
Qed.

Lemma extract_response_markers_filter (metadata : list Metadata) :
  map MetaResponse (extract_response_markers metadata)
  = filter (fun m => is_response m = true) metadata.
Proof.
  unfold extract_response_markers.
  induction metadata as [|m metadata IH]; [reflexivity|].
  destruct m as [p|r|o]; simpl.
  - rewrite filter_cons_False by (simpl; discriminate). exact IH.
  - rewrite filter_cons_True by reflexivity. simpl. by f_equal.
  - rewrite filter_cons_False by (simpl; discriminate). exact IH.
Qed.

(** C2, as the code has it: the return type of the signature is the
    method's [return] annotation ([SuccessfulResponse] without one), and the
    signature holds one entry for every field that type declares, in field
    order, whether or not the field carries response markers.  The entry of
    a field holds the response markers of the field's metadata, each once
    and in the order of the metadata, so it is empty exactly when the field
    carries none; a return type without a field table gives no entry. *)
Theorem from_method_response_markers (method : MemberObject) (signature : Signature) :
  from_method method = Ok signature →
  ∃ type_hints,
    get_annotations method = Ok type_hints
    ∧ return_type signature = default SuccessfulResponse (dict_get type_hints "return")
    ∧ match ann_fields (return_type signature) with
      | None => response_markers signature = []
      | Some fields =>
          map brm_name (response_markers signature) = map fst fields
          ∧ Forall2
              (fun (entry : BoundResponseMarkers) (item : string * ModelField) =>
                 brm_name entry = fst item
                 ∧ map MetaResponse (brm_markers entry)
                   = filter (fun m => is_response m = true) (field_metadata (snd item))
                 ∧ (brm_markers entry = []
                    ↔ ∀ r, MetaResponse r ∉ field_metadata (snd item)))
              (response_markers signature) fields
      end.
Proof.
  intros H. apply from_method_Ok in H as (hints & Hhints & Hret & _ & _ & _ & Hresp).
  exists hints. split; [exact Hhints|]. split; [exact Hret|].
  rewrite Hresp. unfold fields_or_empty.
  destruct (ann_fields (return_type signature)) as [fields|]; [|reflexivity].
  split.
  - rewrite map_map. reflexivity.
  - induction fields as [|item fields IH]; simpl; constructor; [|exact IH].
    simpl. split; [reflexivity|]. split.
    + apply extract_response_markers_filter.
    + apply extract_response_markers_nil.
Qed.

Lemma from_method_response_markers_witness :
  ∃ signature,
    from_method (FunctionObject Httpbin.get_headers) = Ok signature
    ∧ return_type signature = Httpbin.HeadersResponse
    ∧ map brm_name (response_markers signature) = ["headers"].
Proof.
  destruct (from_method (FunctionObject Httpbin.get_headers)) as [signature|e] eqn:E;
    [|discriminate E].
  exists signature. split; [reflexivity|].
  destruct (from_method_response_markers _ signature E) as (hints & Hhints & Hret & Hfields).
  vm_compute in Hhints. injection Hhints as <-.
  change (return_type signature = Httpbin.HeadersResponse) in Hret.
  rewrite Hret in Hfields. simpl in Hfields. destruct Hfields as [Hnames _].
  split; [exact Hret | exact Hnames].
Defined.

(** C2, as stated, fails: [get_headers] of the tests returns a model whose
    only field carries no response marker, and the signature still has an
    entry for it. *)
Lemma from_method_keeps_unmarked_fields :
  ¬ (∀ method signature,
        from_method method = Ok signature →
        ∀ entry, entry ∈ response_markers signature → brm_markers entry ≠ []).
Proof.
  intros H.
  destruct (from_method (FunctionObject Httpbin.get_headers)) as [signature|e] eqn:E;
    [|discriminate E].
  apply (H _ _ E {| brm_name := "headers"; brm_markers := [] |}); [|reflexivity].
  vm_compute in E. injection E as <-. apply list_elem_of_here.
Qed.

(** C10: a method whose return annotation has no field table still gets a
    signature, and the signature's list of response markers is empty. *)
Theorem from_method_unstructured_return (method : MemberObject)
    (type_hints : dict Annotation) :
  get_annotations method = Ok type_hints →
  ann_fields (_extract_return_type type_hints) = None →
  ∃ signature,
    from_method method = Ok signature
    ∧ return_type signature = _extract_return_type type_hints
    ∧ response_markers signature = [].
Proof.
  intros Hhints Hnone. unfold from_method. rewrite Hhints. simpl.
  eexists. split; [reflexivity|]. simpl. split; [reflexivity|].
  unfold fields_or_empty. rewrite Hnone. reflexivity.
Qed.

Lemma from_method_unstructured_return_witness :
  ∃ signature,
    from_method (FunctionObject Httpbin.get_status) = Ok signature
    ∧ ann_name (return_type signature) = "int"
    ∧ response_markers signature = [].
Proof.
  destruct (from_method_unstructured_return (FunctionObject Httpbin.get_status)
              [("return", {| ann_name := "int"; ann_fields := None; ann_metadata := [] |})])
    as (signature & H1 & H2 & H3); [reflexivity | reflexivity |].
  exists signature. rewrite H2. done.
Defined.

(** ** Member enumeration *)

Lemma lookup_mro_Some_dir (namespaces : list (dict Member)) (name : string) (m : Member) :
  lookup_mro namespaces name = Some m → name ∈ concat (map dict_keys namespaces).
Proof.
  induction namespaces as [|namespace rest IH]; simpl; [discriminate|].
  destruct (dict_get namespace name) as [m'|] eqn:E; intros H; apply elem_of_app.
  - left. by eapply dict_get_Some_keys.
  - right. by apply IH.
Qed.

Lemma getattr_Some_dir (cls : Class) (name : string) (value : MemberObject) :
  getattr cls name = Some value → name ∈ dir cls.
Proof.
  unfold getattr, dir. intros H. apply elem_of_remove_dups.
  destruct (lookup_mro (mro_namespaces cls) name) as [m|] eqn:E; [|discriminate].
  by eapply lookup_mro_Some_dir.
Qed.

Lemma get_members_spec (cls : Class) (predicate : MemberObject → bool)
    (name : string) (value : MemberObject) :
  (name, value) ∈ get_members cls predicate
  ↔ getattr cls name = Some value ∧ predicate value = true.
Proof.
  unfold get_members. rewrite merge_sort_Permutation, list_elem_of_omap. split.
  - intros (n & _ & Hn). destruct (getattr cls n) as [v|] eqn:E; [|discriminate].
    destruct (predicate v) eqn:P; [|discriminate]. by simplify_eq.
  - intros [Hget Hp]. exists name. split; [by eapply getattr_Some_dir|].
    by rewrite Hget, Hp.
Qed.

Lemma get_members_names_sublist (cls : Class) (predicate : MemberObject → bool)
    (names : list string) :
  map fst
    (omap (fun name =>
             match getattr cls name with
             | Some value => if predicate value then Some (name, value) else None
             | None => None
             end) names)
  `sublist_of` names.
Proof.
  induction names as [|n names IH]; simpl; [constructor|].
  destruct (getattr cls n) as [v|]; [destruct (predicate v)|]; simpl;
    by constructor.
Qed.

Lemma get_members_NoDup (cls : Class) (predicate : MemberObject → bool) :
  NoDup (map fst (get_members cls predicate)).
Proof.
  unfold get_members.
  rewrite (fmap_Permutation fst _ _ (merge_sort_Permutation by_name _)).
  eapply sublist_NoDup; [|apply get_members_names_sublist].
  apply NoDup_remove_dups.
Qed.

Lemma enumerate_members_spec (members : list (string * MemberObject))
    (name : string) (method : MemberObject) :
  (name, method) ∈ enumerate_members members
  ↔ (name, method) ∈ members
    ∧ String.prefix "_" name = false
    ∧ "self" ∈ map param_name (get_signature method).
Proof.
  induction members as [|[n m] members IH]; simpl.
  - split; [intros H | intros [H _]]; by apply elem_of_nil in H.
  - destruct (String.prefix "_" n) eqn:P.
    { rewrite IH, elem_of_cons. split; [tauto|].
      intros [[Heq|Hin] [Hp Hs]]; [simplify_eq; congruence | tauto]. }
    case_bool_decide as S; simpl.
    + rewrite !elem_of_cons, IH. split.
      * intros [Heq|H]; [simplify_eq; tauto | tauto].
      * tauto.
    + rewrite IH, elem_of_cons. split; [tauto|].
      intros [[Heq|Hin] [Hp Hs]]; [simplify_eq; done | tauto].
Qed.

Lemma enumerate_members_sublist (members : list (string * MemberObject)) :
  map fst (enumerate_members members) `sublist_of` map fst members.
Proof.
  induction members as [|[n m] members IH]; simpl; [constructor|].
  destruct (String.prefix "_" n); [by constructor|].
  case_bool_decide; simpl; by constructor.
Qed.

Lemma _enumerate_methods_NoDup (of_protocol : Class) :
  NoDup (map fst (_enumerate_methods of_protocol)).
Proof.
  eapply sublist_NoDup; [apply get_members_NoDup | apply enumerate_members_sublist].
Qed.

Lemma _enumerate_methods_spec (of_protocol : Class) (name : string) (method : MemberObject) :
  (name, method) ∈ _enumerate_methods of_protocol
  ↔ getattr of_protocol name = Some method
    ∧ callable method = true
    ∧ String.prefix "_" name = false
    ∧ "self" ∈ map param_name (get_signature method).
Proof.
  unfold _enumerate_methods. rewrite enumerate_members_spec, get_members_spec. tauto.
Qed.

(** ** [_wrap] and the installed methods *)

Lemma _wrap_fold_left (method : Callable) (with_marks : list MethodMarker) :
  _wrap method with_marks = fold_left (fun m mark => wrap mark m) with_marks method.
Proof.
  revert method. induction with_marks as [|mark rest IH]; intros method; simpl;
    [reflexivity | apply IH].
Qed.

Lemma _wrap_snoc (method : Callable) (with_marks : list MethodMarker) (last : MethodMarker) :
  _wrap method (with_marks ++ [last]) = wrap last (_wrap method with_marks).
Proof.
  rewrite !_wrap_fold_left, fold_left_app. reflexivity.
Qed.

Lemma install_methods_spec (method_binder : MethodBinder)
    (methods : list (string * MemberObject)) (namespace namespace' : dict Callable) :
  install_methods method_binder methods namespace = Ok namespace' →
  NoDup (map fst methods) →
  (∀ name, name ∈ map fst methods → name ∉ dict_keys namespace) →
  dict_keys namespace' = dict_keys namespace ++ map fst methods
  ∧ (∀ name, name ∉ map fst methods →
       dict_get namespace' name = dict_get namespace name)
  ∧ (∀ name method, (name, method) ∈ methods →
       ∃ signature,
         from_method method = Ok signature
         ∧ dict_get namespace' name = Some (installed method_binder method signature)).
Proof.
  revert namespace. induction methods as [|[n m] methods IH]; intros namespace; simpl.
  - intros [= <-] _ _. rewrite app_nil_r. split; [done|]. split; [done|].
    intros name method H. by apply elem_of_nil in H.
  - destruct (from_method m) as [signature|e] eqn:Esig; simpl; [|discriminate].
    intros Hinst Hnodup Hfresh.
    apply NoDup_cons in Hnodup as [Hn Hnodup].
    assert (Hn' : n ∉ dict_keys namespace) by (apply Hfresh, list_elem_of_here).
    apply IH in Hinst as (Hkeys & Hother & Hin); [|exact Hnodup|].
    2:{ intros name Hname. rewrite dict_keys_set_fresh by exact Hn'.
        rewrite not_elem_of_app, not_elem_of_cons. split; [|split].
        - apply Hfresh. by apply list_elem_of_further.
        - intros ->. done.
        - apply not_elem_of_nil. }
    rewrite dict_keys_set_fresh in Hkeys by exact Hn'.
    split; [by rewrite Hkeys, <- app_assoc|]. split.
    + intros name Hname. apply not_elem_of_cons in Hname as [Hne Hname].
      rewrite Hother by exact Hname. apply dict_get_set_ne. done.
    + intros name method Hmem. apply elem_of_cons in Hmem as [Heq|Hmem].
      * simplify_eq. exists signature. split; [exact Esig|].
        rewrite Hother by exact Hn. rewrite dict_get_set_eq.
        unfold installed. by rewrite <- _wrap_fold_left.
      * by apply Hin.
Qed.

Lemma bind_class_body_Ok (identity : nat) (from_protocol : Class)
    (method_binder : MethodBinder) (cls : BoundClass) :
  bind_class_body identity from_protocol method_binder = Ok cls →
  install_methods method_binder (_enumerate_methods from_protocol) [] = Ok (bound_dict cls)
  ∧ bound_identity cls = identity
  ∧ bound_protocol cls = from_protocol
  ∧ class_abc from_protocol = true.
Proof.
  unfold bind_class_body.
  destruct (install_methods _ _ _) as [namespace|e]; simpl; [|discriminate].
  unfold _update_bound_service. simpl.
  destruct (class_abc from_protocol); simpl; [|discriminate].
  intros [= <-]. simpl. done.
Qed.

(** C3, as the code has it: [bind_class] installs a callable under exactly
    the names [_enumerate_methods] yields, and those are the names under
    which the interface, through its own namespace or an inherited one, has
    a callable member whose name does not start with an underscore and whose
    signature has a parameter called [self]. *)
Theorem bind_class_installs_enumerated (identity : nat) (from_protocol : Class)
    (method_binder : MethodBinder) (cls : BoundClass) :
  bind_class_body identity from_protocol method_binder = Ok cls →
  dict_keys (bound_dict cls) = map fst (_enumerate_methods from_protocol)
  ∧ ∀ name,
      name ∈ dict_keys (bound_dict cls)
      ↔ ∃ method,
          getattr from_protocol name = Some method
          ∧ callable method = true
          ∧ String.prefix "_" name = false
          ∧ "self" ∈ map param_name (get_signature method).
Proof.
  intros Hbody. apply bind_class_body_Ok in Hbody as (Hinst & _ & _ & _).
  apply install_methods_spec in Hinst as (Hkeys & _ & _).
  - simpl in Hkeys. split; [exact Hkeys|]. intros name. rewrite Hkeys. split.
    + intros Hin. apply list_elem_of_fmap in Hin as ([n m] & -> & Hin).
      exists m. by apply _enumerate_methods_spec.
    + intros (method & H). apply _enumerate_methods_spec in H.
      apply list_elem_of_fmap. by exists (name, method).
  - apply _enumerate_methods_NoDup.
  - intros name _. apply not_elem_of_nil.
Qed.

Lemma bind_class_installs_enumerated_witness :
  match bind_class_body 0 Httpbin.SupportsMore (binder Httpbin.backend) with
  | Ok cls => dict_keys (bound_dict cls) = ["get_anything"; "get_headers"; "get_status"]
  | Raise _ => False
  end.
Proof.
  destruct (bind_class_body 0 Httpbin.SupportsMore (binder Httpbin.backend))
    as [cls|e] eqn:E; [|vm_compute in E; discriminate E].
  rewrite (proj1 (bind_class_installs_enumerated _ _ _ _ E)).
  vm_compute. reflexivity.
Defined.

(** C3, as stated, fails: [SupportsMore] inherits [get_anything] from the
    protocol it extends, and the method is enumerated although the class
    does not declare it. *)
Lemma enumerate_methods_lists_inherited :
  ¬ (∀ of_protocol name method,
        (name, method) ∈ _enumerate_methods of_protocol →
        name ∈ dict_keys (class_dict of_protocol)).
Proof.
  intros H.
  specialize (H Httpbin.SupportsMore "get_anything" (FunctionObject Httpbin.get_anything)).
  assert (Hin : "get_anything" ∈ dict_keys (class_dict Httpbin.SupportsMore)).
  { apply H. apply _enumerate_methods_spec.
    repeat split; try reflexivity.
    apply (bool_decide_unpack _). vm_compute. exact I. }
  apply (bool_decide_pack _) in Hin. vm_compute in Hin. exact Hin.
Qed.

(** C8: the callable installed for a method is the binder's callable
    wrapped by the method markers of the signature in list order, a left
    fold of [wrap]; hence the last marker of the list is the outermost
    wrapper. *)
Theorem installed_method_is_left_fold (identity : nat) (from_protocol : Class)
    (method_binder : MethodBinder) (cls : BoundClass)
    (name : string) (method : MemberObject) :
  bind_class_body identity from_protocol method_binder = Ok cls →
  (name, method) ∈ _enumerate_methods from_protocol →
  (∃ signature,
      from_method method = Ok signature
      ∧ dict_get (bound_dict cls) name
        = Some (update_wrapper
                  (fold_left (fun m mark => wrap mark m) (method_markers signature)
                             (binder_call method_binder signature))
                  method))
  ∧ (∀ inner marks last, _wrap inner (marks ++ [last]) = wrap last (_wrap inner marks)).
Proof.
  intros Hbody Hin. split; [|intros; apply _wrap_snoc].
  apply bind_class_body_Ok in Hbody as (Hinst & _ & _ & _).
  apply install_methods_spec in Hinst as (_ & _ & Hall).
  - apply Hall in Hin as (signature & Hsig & Hget). by exists signature.
  - apply _enumerate_methods_NoDup.
  - intros n _. apply not_elem_of_nil.
Qed.

Lemma installed_method_is_left_fold_witness :
  match bind_class_body 0 Httpbin.SupportsHttpbin (binder Httpbin.backend) with
  | Ok cls =>
      ∃ signature,
        from_method (FunctionObject Httpbin.get_headers) = Ok signature
        ∧ dict_get (bound_dict cls) "get_headers"
          = Some (installed (binder Httpbin.backend)
                            (FunctionObject Httpbin.get_headers) signature)
  | Raise _ => False
  end.
Proof.
  destruct (bind_class_body 0 Httpbin.SupportsHttpbin (binder Httpbin.backend))
    as [cls|e] eqn:E; [|vm_compute in E; discriminate E].
  apply (installed_method_is_left_fold _ _ _ _ "get_headers"
           (FunctionObject Httpbin.get_headers) E).
  apply _enumerate_methods_spec. repeat split; try reflexivity.
  apply (bool_decide_unpack _). vm_compute. exact I.
Defined.

(** With two tagging markers the tag of the second one ends up outside. *)
Example _wrap_tags_in_order (inner : Callable) (w : Runtime) (v : Value) :
  call inner 1 [] [] w = (Ok v, w) →
  call (_wrap inner [Httpbin.tagging "first"; Httpbin.tagging "second"]) 1 [] [] w
  = (Ok (VTuple [VStr "second"; VTuple [VStr "first"; v]]), w).
Proof.
  intros H. simpl. unfold and_then. rewrite H. reflexivity.
Qed.

(** ** The cache of [bind_class] *)

Lemma key_eqb_eq (a b : nat * nat) : key_eqb a b = true ↔ a = b.
Proof.
  destruct a as [a1 a2], b as [b1 b2]. unfold key_eqb. simpl.
  rewrite andb_true_iff, !Nat.eqb_eq. split; [intros [-> ->]; done | intros [= -> ->]; done].
Qed.

Lemma key_eqb_refl (a : nat * nat) : key_eqb a a = true.
Proof. by apply key_eqb_eq. Qed.

Lemma key_eqb_ne (a b : nat * nat) : a ≠ b → key_eqb a b = false.
Proof.
  intros Hne. destruct (key_eqb a b) eqn:E; [|done]. by apply key_eqb_eq in E.
Qed.

Lemma cache_get_None (entries : list ((nat * nat) * BoundClass)) (key : nat * nat) :
  cache_get entries key = None ↔ key ∉ map fst entries.
Proof.
  induction entries as [|[k v] entries IH]; simpl.
  - split; [intros _; apply not_elem_of_nil | done].
  - rewrite not_elem_of_cons. destruct (key_eqb k key) eqn:E.
    + apply key_eqb_eq in E as ->. split; [discriminate | intros [H _]; done].
    + rewrite IH. split; [|tauto]. intros H. split; [|done].
      intros ->. by rewrite key_eqb_refl in E.
Qed.

Lemma cache_get_middle (older newer : list ((nat * nat) * BoundClass))
    (key : nat * nat) (cls : BoundClass) :
  NoDup (map fst (older ++ (key, cls) :: newer)) →
  cache_get (older ++ (key, cls) :: newer) key = Some cls.
Proof.
  induction older as [|[k v] older IH]; simpl; intros Hnd.
  - by rewrite key_eqb_refl.
  - apply NoDup_cons in Hnd as [Hk Hnd]. rewrite key_eqb_ne; [by apply IH|].
    intros ->. apply Hk. rewrite map_app. apply elem_of_app. right. apply list_elem_of_here.
Qed.

Lemma cache_remove_filter (entries : list ((nat * nat) * BoundClass)) (key : nat * nat) :
  NoDup (map fst entries) →
  cache_remove entries key = filter (fun e => fst e ≠ key) entries.
Proof.
  induction entries as [|[k v] entries IH]; simpl; intros Hnd; [done|].
  apply NoDup_cons in Hnd as [Hk Hnd]. destruct (key_eqb k key) eqn:E.
  - apply key_eqb_eq in E as ->. rewrite filter_cons_False by (simpl; tauto).
    clear IH Hnd. induction entries as [|[k' v'] entries IH]; [done|].
    simpl in Hk. apply not_elem_of_cons in Hk as [Hne Hk].
    rewrite filter_cons_True by (simpl; congruence). f_equal. by apply IH.
  - rewrite filter_cons_True.
    + f_equal. by apply IH.
    + simpl. intros ->. by rewrite key_eqb_refl in E.
Qed.

Lemma filter_keys_subseteq (entries : list ((nat * nat) * BoundClass)) (key k : nat * nat) :
  k ∈ map fst (filter (fun e => fst e ≠ key) entries) → k ∈ map fst entries ∧ k ≠ key.
Proof.
  intros H. apply list_elem_of_fmap in H as (e & -> & He).
  apply list_elem_of_filter in He as [Hne He]. split; [|done].
  apply list_elem_of_fmap. by exists e.
Qed.

Lemma filter_keys_NoDup (entries : list ((nat * nat) * BoundClass)) (key : nat * nat) :
  NoDup (map fst entries) → NoDup (map fst (filter (fun e => fst e ≠ key) entries)).
Proof.
  induction entries as [|[k v] entries IH]; simpl; intros Hnd; [constructor|].
  apply NoDup_cons in Hnd as [Hk Hnd]. destruct (decide (k ≠ key)) as [Hne|Heq].
  - rewrite filter_cons_True by done. simpl. apply NoDup_cons. split; [|by apply IH].
    intros H. by apply filter_keys_subseteq in H as [H _].
  - rewrite filter_cons_False by done. by apply IH.
Qed.

Lemma cache_ok_initial : cache_ok initial_bind_state.
Proof. split; simpl; [constructor | lia]. Qed.

Lemma NoDup_keys_snoc (entries : list ((nat * nat) * BoundClass))
    (key : nat * nat) (cls : BoundClass) :
  NoDup (map fst entries) → key ∉ map fst entries →
  NoDup (map fst (entries ++ [(key, cls)])).
Proof.
  intros Hnd Hk. rewrite map_app. simpl. apply NoDup_app. split; [done|]. split.
  - intros x Hx Hx'. apply list_elem_of_singleton in Hx' as ->. done.
  - apply NoDup_singleton.
Qed.

Lemma NoDup_keys_tail (entries : list ((nat * nat) * BoundClass)) :
  NoDup (map fst entries) → NoDup (map fst (tail entries)).
Proof.
  destruct entries as [|e entries]; simpl; [done|]. intros H. by apply NoDup_cons in H as [_ H].
Qed.

Lemma keys_tail (entries : list ((nat * nat) * BoundClass)) (k : nat * nat) :
  k ∈ map fst (tail entries) → k ∈ map fst entries.
Proof.
  destruct entries as [|e entries]; simpl; [done|]. apply list_elem_of_further.
Qed.

(** A hit: the shape of the new cache. *)
Lemma bind_class_hit (from_protocol : Class) (method_binder : MethodBinder)
    (st : BindState) (cls : BoundClass) :
  cache_get (cache st) (make_key from_protocol method_binder) = Some cls →
  bind_class from_protocol method_binder st
  = (Ok cls,
     {| cache := cache_remove (cache st) (make_key from_protocol method_binder)
                 ++ [(make_key from_protocol method_binder, cls)];
        next_identity := next_identity st |}).
Proof. intros H. unfold bind_class. by rewrite H. Qed.

Lemma bind_class_cache_ok (from_protocol : Class) (method_binder : MethodBinder)
    (st : BindState) :
  cache_ok st → cache_ok (snd (bind_class from_protocol method_binder st)).
Proof.
  intros [Hnd Hlen]. unfold bind_class.
  set (key := make_key from_protocol method_binder).
  destruct (cache_get (cache st) key) as [cls|] eqn:Hget.
  - assert (Hin : key ∈ map fst (cache st)).
    { destruct (decide (key ∈ map fst (cache st))) as [H|H]; [done|].
      apply cache_get_None in H. congruence. }
    cbn [snd]. rewrite cache_remove_filter by done. split; cbn [cache].
    + apply NoDup_keys_snoc; [by apply filter_keys_NoDup|].
      intros H. by apply filter_keys_subseteq in H as [_ H].
    + rewrite length_app. cbn [length].
      apply list_elem_of_fmap in Hin as (e & He & Hin).
      pose proof (length_filter_lt (fun e => fst e ≠ key) (cache st) e Hin) as Hlt.
      simpl in Hlt. specialize (Hlt ltac:(intros H; by apply H)). lia.
  - apply cache_get_None in Hget.
    destruct (bind_class_body _ _ _) as [cls|e]; [|done].
    destruct (Nat.leb_spec maxsize (length (cache st))) as [Hfull|Hroom];
      split; cbn [snd cache]; rewrite ?length_app; cbn [length].
    + apply NoDup_keys_snoc; [by apply NoDup_keys_tail|].
      intros H. by apply keys_tail in H.
    + destruct (cache st); cbn [tail length] in *; [unfold maxsize in *|]; lia.
    + by apply NoDup_keys_snoc.
    + lia.
Qed.

Lemma bind_classes_cache_ok (calls : list (Class * MethodBinder)) (st : BindState) :
  cache_ok st → cache_ok (bind_classes calls st).
Proof.
  revert st. induction calls as [|[I f] calls IH]; intros st H; simpl; [done|].
  by apply IH, bind_class_cache_ok.
Qed.

Lemma bind_class_stores (from_protocol : Class) (method_binder : MethodBinder)
    (st st1 : BindState) (cls : BoundClass) (universe : list (nat * nat)) :
  cache_ok st →
  bind_class from_protocol method_binder st = (Ok cls, st1) →
  retains (make_key from_protocol method_binder) cls universe st1.
Proof.
  intros Hok Hcall. split.
  { replace st1 with (snd (bind_class from_protocol method_binder st))
      by (by rewrite Hcall).
    by apply bind_class_cache_ok. }
  revert Hcall. unfold bind_class.
  set (key := make_key from_protocol method_binder).
  destruct (cache_get (cache st) key) as [c|] eqn:Hget.
  - intros [= -> <-]. eexists _, []. split; [reflexivity|].
    intros k H. by apply elem_of_nil in H.
  - destruct (bind_class_body _ _ _) as [c|e]; [|discriminate].
    intros [= -> <-]. eexists _, []. split; [reflexivity|].
    intros k H. by apply elem_of_nil in H.
Qed.

Lemma retains_hit (from_protocol : Class) (method_binder : MethodBinder)
    (st : BindState) (cls : BoundClass) (universe : list (nat * nat)) :
  retains (make_key from_protocol method_binder) cls universe st →
  ∃ st', bind_class from_protocol method_binder st = (Ok cls, st').
Proof.
  intros ([Hnd _] & older & newer & Hcache & _).
  eexists. apply bind_class_hit. rewrite Hcache. apply cache_get_middle.
  by rewrite <- Hcache.
Qed.

Section Retention.

Variables (key : nat * nat) (cls : BoundClass) (universe : list (nat * nat)).

Hypothesis few_others :
  (length (remove_dups (filter (fun k => k ≠ key) universe)) < maxsize)%nat.

Lemma newer_entries_bound (newer : list ((nat * nat) * BoundClass)) (k' : nat * nat) :
  NoDup (map fst newer ++ [k']) →
  (∀ k, k ∈ map fst newer ++ [k'] → k ∈ universe ∧ k ≠ key) →
  (length newer + 1 < maxsize)%nat.
Proof using few_others.
  intros Hnd Hall.
  assert (Hsub : map fst newer ++ [k'] ⊆+ remove_dups (filter (fun k => k ≠ key) universe)).
  { apply NoDup_submseteq; [exact Hnd|]. intros k Hk.
    apply elem_of_remove_dups, list_elem_of_filter. destruct (Hall k Hk). done. }
  apply submseteq_length in Hsub. rewrite length_app, length_map in Hsub.
  simpl in Hsub. lia.
Qed.

Lemma bind_class_retains (from_protocol : Class) (method_binder : MethodBinder)
    (st : BindState) :
  make_key from_protocol method_binder ∈ universe
    ∨ make_key from_protocol method_binder = key →
  retains key cls universe st →
  retains key cls universe (snd (bind_class from_protocol method_binder st)).
Proof using few_others.
  intros Hk ([Hnd Hlen] & older & newer & Hcache & Hnewer).
  split; [by apply bind_class_cache_ok|].
  assert (Hkey : key ∈ map fst (cache st)).
  { rewrite Hcache, map_app. apply elem_of_app. right. apply list_elem_of_here. }
  assert (Hnewer_ne : ∀ k, k ∈ map fst newer → k ≠ key).
  { intros k Hin ->. rewrite Hcache, map_app in Hnd. simpl in Hnd.
    apply NoDup_app in Hnd as (_ & _ & Hnd). by apply NoDup_cons in Hnd as [Hnd _]. }
  unfold bind_class. set (k' := make_key from_protocol method_binder) in *.
  destruct (cache_get (cache st) k') as [c|] eqn:Hget.
  - cbn [snd cache]. rewrite cache_remove_filter by done.
    rewrite Hcache, filter_app. destruct (decide (k' = key)) as [Heq|Hne].
    + rewrite filter_cons_False by (simpl; intros H; congruence).
      rewrite Hcache, Heq, cache_get_middle in Hget by (by rewrite <- Hcache).
      injection Hget as <-. rewrite Heq.
      eexists _, []. split; [reflexivity|].
      intros k H. by apply elem_of_nil in H.
    + rewrite filter_cons_True by (simpl; congruence).
      eexists _, _. split; [by rewrite <- app_assoc, <- app_comm_cons|].
      intros k Hin. rewrite map_app in Hin. apply elem_of_app in Hin as [Hin|Hin].
      * apply filter_keys_subseteq in Hin as [Hin _]. by apply Hnewer.
      * simpl in Hin. apply list_elem_of_singleton in Hin as ->. by destruct Hk.
  - apply cache_get_None in Hget.
    assert (Hne : k' ≠ key) by (intros Heq; by rewrite Heq in Hget).
    destruct (bind_class_body _ _ _) as [c|e]; cbn [snd cache];
      [|by exists older, newer].
    assert (Hgrow : ∀ k, k ∈ map fst (newer ++ [(k', c)]) → k ∈ universe).
    { intros k Hin. rewrite map_app in Hin. apply elem_of_app in Hin as [Hin|Hin].
      - by apply Hnewer.
      - simpl in Hin. apply list_elem_of_singleton in Hin as ->. by destruct Hk. }
    destruct (Nat.leb_spec maxsize (length (cache st))) as [Hfull|Hroom].
    + destruct older as [|o older].
      * exfalso. rewrite Hcache in Hfull, Hnd, Hget. simpl in Hfull, Hnd, Hget.
        apply NoDup_cons in Hnd as [_ Hnd]. apply not_elem_of_cons in Hget as [_ Hget].
        assert (length newer + 1 < maxsize)%nat; [|lia].
        apply (newer_entries_bound newer k').
        -- apply NoDup_app. split; [done|]. split; [|apply NoDup_singleton].
           intros x Hx Hx'. apply list_elem_of_singleton in Hx' as ->. done.
        -- intros k Hin. apply elem_of_app in Hin as [Hin|Hin].
           ++ split; [by apply Hnewer | by apply Hnewer_ne].
           ++ apply list_elem_of_singleton in Hin as ->. by destruct Hk.
      * rewrite Hcache. simpl. exists older, (newer ++ [(k', c)]).
        split; [by rewrite <- app_assoc, <- app_comm_cons | exact Hgrow].
    + rewrite Hcache. exists older, (newer ++ [(k', c)]).
      split; [by rewrite <- app_assoc, <- app_comm_cons | exact Hgrow].
Qed.

Lemma bind_classes_retains (calls : list (Class * MethodBinder)) (st : BindState) :
  (∀ c, c ∈ calls → make_key (fst c) (snd c) ∈ universe) →
  retains key cls universe st →
  retains key cls universe (bind_classes calls st).
Proof using few_others.
  revert st. induction calls as [|[I f] calls IH]; intros st Hall H; simpl; [done|].
  apply IH.
  - intros c Hc. apply Hall. by apply list_elem_of_further.
  - apply bind_class_retains; [|done]. left. apply (Hall (I, f)), list_elem_of_here.
Qed.

End Retention.

(** ** [bind] *)

Lemma BaseBoundService_init_spec (cls : BoundClass) (backend : nat) (w : Runtime) :
  objects w !! fst (BaseBoundService_init cls backend w) = None
  ∧ objects (snd (BaseBoundService_init cls backend w))
    = <[fst (BaseBoundService_init cls backend w) :=
          ServiceObject (bound_identity cls) {["backend" := VRef backend]}]> (objects w)
  ∧ trace (snd (BaseBoundService_init cls backend w)) = trace w.
Proof.
  unfold BaseBoundService_init. simpl. split; [|done].
  apply not_elem_of_dom, is_fresh.
Qed.

Lemma bind_Ok (from_protocol : Class) (to_backend : ProvidesBinder) (e : Engine)
    (cls : BoundClass) (st : BindState) :
  bind_class from_protocol (binder to_backend) (binding e) = (Ok cls, st) →
  bind from_protocol to_backend e
  = (Ok (fst (BaseBoundService_init cls (backend_ref to_backend) (world e))),
     {| binding := st;
        world := snd (BaseBoundService_init cls (backend_ref to_backend) (world e)) |}).
Proof. intros H. unfold bind. rewrite H. reflexivity. Qed.

(** Where the bound of the cache shows: once 100 other interfaces have
    been bound, the entry is gone, and binding the first interface again
    makes a new class. *)
Example bind_class_evicts_after_maxsize :
  let f := binder Httpbin.backend in
  let first := bind_class (Httpbin.numbered 0) f initial_bind_state in
  let others := map (fun i => (Httpbin.numbered i, f)) (seq 1 100) in
  identity_of (fst first) = Some 0
  ∧ identity_of (fst (bind_class (Httpbin.numbered 0) f (bind_classes others (snd first))))
    = Some 101.
Proof. vm_compute. split; reflexivity. Qed.

(** ** The backend call *)

Lemma transport_calls_emit (ev : Event) (w : Runtime) :
  transport_calls (snd (emit ev w))
  = transport_calls w ++ match ev with EvRequest _ c => [c] | _ => [] end.
Proof.
  unfold transport_calls, emit. simpl. rewrite omap_app. by destruct ev.
Qed.

Lemma decodings_emit (ev : Event) (w : Runtime) :
  decodings (snd (emit ev w))
  = decodings w ++ match ev with EvParse _ r => [r] | _ => [] end.
Proof.
  unfold decodings, emit. simpl. rewrite omap_app. by destruct ev.
Qed.

Lemma HttpxBackend_call_unfold (base : BaseHttpxBackend) (self : nat) (request : Request)
    (response_type : Annotation) (response_extractors : ResponseExtractors)
    (w : Runtime) (client : ClientRequest → result Response) (cm : ContextManager) :
  objects w !! self = Some (BackendObject client cm) →
  HttpxBackend_call base self request response_type response_extractors w
  = let w1 := snd (emit (EvRequest self (request_arguments request)) w) in
    match client (request_arguments request) with
    | Raise e => (Raise e, w1)
    | Ok response =>
        if is_success response
        then (_parse_response base response response_type response_extractors,
              snd (emit (EvParse self response) w1))
        else (Raise (HTTPStatusError (status_code response)), w1)
    end.
Proof.
  intros Hself. unfold HttpxBackend_call, and_then, get_backend, lift, raise_for_status.
  rewrite Hself. simpl.
  destruct (client (request_arguments request)) as [response|e]; [|reflexivity].
  destruct (is_success response); reflexivity.
Qed.

Lemma HttpxBackend_call_sends (base : BaseHttpxBackend) (self : nat) (request : Request)
    (response_type : Annotation) (response_extractors : ResponseExtractors)
    (w : Runtime) (client : ClientRequest → result Response) (cm : ContextManager) :
  objects w !! self = Some (BackendObject client cm) →
  transport_calls
    (snd (HttpxBackend_call base self request response_type response_extractors w))
  = transport_calls w ++ [request_arguments request]
  ∧ objects (snd (HttpxBackend_call base self request response_type response_extractors w))
    = objects w.
Proof.
  intros Hself. rewrite (HttpxBackend_call_unfold _ _ _ _ _ _ _ _ Hself). cbv zeta.
  destruct (client (request_arguments request)) as [response|e];
    [destruct (is_success response)|]; cbn [fst snd];
    rewrite ?transport_calls_emit, ?app_nil_r; done.
Qed.

(** [__call__] sends one request; when the transport fails, or answers
    with a status that is not a success, it raises the transport's error and
    no decoding is started; a response is decoded only when the transport
    returned it with a success status. *)
Lemma HttpxBackend_call_outcome (base : BaseHttpxBackend) (self : nat)
    (request : Request) (response_type : Annotation)
    (response_extractors : ResponseExtractors)
    (w : Runtime) (client : ClientRequest → result Response) (cm : ContextManager) :
  objects w !! self = Some (BackendObject client cm) →
  let outcome := HttpxBackend_call base self request response_type response_extractors w in
  transport_calls (snd outcome) = transport_calls w ++ [request_arguments request]
  ∧ objects (snd outcome) = objects w
  ∧ match client (request_arguments request) with
    | Raise e =>
        fst outcome = Raise e ∧ decodings (snd outcome) = decodings w
    | Ok response =>
        if is_success response
        then fst outcome = _parse_response base response response_type response_extractors
             ∧ decodings (snd outcome) = decodings w ++ [response]
        else fst outcome = Raise (HTTPStatusError (status_code response))
             ∧ decodings (snd outcome) = decodings w
    end.
Proof.
  intros Hself outcome. subst outcome.
  rewrite (HttpxBackend_call_unfold _ _ _ _ _ _ _ _ Hself). cbv zeta.
  destruct (client (request_arguments request)) as [response|e].
  - destruct (is_success response); cbn [fst snd].
    + rewrite transport_calls_emit, app_nil_r, transport_calls_emit.
      rewrite decodings_emit, decodings_emit, app_nil_r. done.
    + rewrite transport_calls_emit, decodings_emit, app_nil_r. done.
  - cbn [fst snd]. rewrite transport_calls_emit, decodings_emit, app_nil_r. done.
Qed.

(** The same through the bound method, with the default [request_with]:
    the error leaves the bound call, after the context manager is left. *)
Lemma bound_method_transport_failure (base : BaseHttpxBackend) (signature : Signature)
    (response_extractors : ResponseExtractors)
    (service backend : nat) (args : list Value) (kwargs : dict Value)
    (w : Runtime) (class_id : nat) (attributes : gmap string Value)
    (client : ClientRequest → result Response) (cm : ContextManager) (request : Request) :
  build_request signature service args kwargs = Ok request →
  objects w !! service = Some (ServiceObject class_id attributes) →
  attributes !! "backend" = Some (VRef backend) →
  objects w !! backend = Some (BackendObject client cm) →
  (∀ e, cm_suppresses cm e = false) →
  match client (request_arguments request) with
  | Raise _ => True
  | Ok response => is_success response = false
  end →
  ∃ e w',
    bound_method base signature response_extractors service args kwargs w = (Raise e, w')
    ∧ decodings w' = decodings w
    ∧ transport_calls w' = transport_calls w ++ [request_arguments request]
    ∧ trace w' = trace w ++ [EvEnter backend;
                             EvRequest backend (request_arguments request);
                             EvExit backend].
Proof.
  intros Hreq Hservice Hattr Hbackend Hcm Hfail.
  unfold bound_method, async_with, and_then, lift, get_backend_attribute, get_backend.
  rewrite Hreq, Hservice, Hattr, Hbackend. cbn [fst snd emit objects].
  erewrite HttpxBackend_call_unfold by (cbn [objects]; exact Hbackend). cbv zeta.
  destruct (client (request_arguments request)) as [response|e].
  - rewrite Hfail, Hcm. eexists _, _. split; [reflexivity|].
    unfold decodings, transport_calls. cbn [trace snd emit].
    rewrite <- !app_assoc, !omap_app. simpl. rewrite !app_nil_r. done.
  - rewrite Hcm. eexists _, _. split; [reflexivity|].
    unfold decodings, transport_calls. cbn [trace snd emit].
    rewrite <- !app_assoc, !omap_app. simpl. rewrite !app_nil_r. done.
Qed.

(** A connection that fails: the bound [get_status] raises the transport's
    error, nothing is decoded, and the context manager is left. *)
Example connection_error_reaches_caller :
  let outcome :=
    call (bind_method Httpbin.base Httpbin.get_status_signature) 1 [] []
         (Httpbin.world_with Httpbin.unreachable) in
  fst outcome = Raise (TransportError "connection refused")
  ∧ decodings (snd outcome) = []
  ∧ trace (snd outcome)
    = [EvEnter 0; EvRequest 0 (request_arguments empty_request); EvExit 0].
Proof. vm_compute. done. Qed.

(** ** Argument binding *)

Lemma kind_eqb_eq (a b : ParameterKind) : kind_eqb a b = true ↔ a = b.
Proof. destruct a, b; simpl; split; intros H; try done. Qed.

Lemma kind_eqb_ne (a b : ParameterKind) : a ≠ b → kind_eqb a b = false.
Proof. intros H. destruct (kind_eqb a b) eqn:E; [|done]. by apply kind_eqb_eq in E. Qed.

Lemma dict_has_false {V} (d : dict V) (k : string) :
  k ∉ dict_keys d → dict_has d k = false.
Proof. intros H. unfold dict_has. apply dict_get_None_keys in H. by rewrite H. Qed.

Lemma dict_pop_None {V} (d : dict V) (k : string) :
  k ∉ dict_keys d → dict_pop d k = None.
Proof.
  induction d as [|[k' v'] d IH]; simpl; [done|].
  rewrite not_elem_of_cons. intros [Hne Hk].
  destruct (String.eqb_spec k' k); [congruence|]. by rewrite IH.
Qed.

Lemma dict_pop_keys {V} (d d' : dict V) (n : string) (v : V) :
  dict_pop d n = Some (v, d') →
  (∀ k, k ∈ dict_keys d' → k ∈ dict_keys d)
  ∧ (∀ k, k ≠ n → k ∈ dict_keys d → k ∈ dict_keys d').
Proof.
  revert d'. induction d as [|[k' v'] d IH]; intros d'; simpl; [discriminate|].
  destruct (String.eqb_spec k' n) as [->|Hne].
  - intros [= <- <-]. split.
    + intros k Hk. by apply list_elem_of_further.
    + intros k Hk Hin. apply elem_of_cons in Hin as [->|Hin]; done.
  - destruct (dict_pop d n) as [[w d'']|] eqn:E; [|discriminate].
    intros [= <- <-]. destruct (IH d'' eq_refl) as [Hsub Hkeep]. split.
    + intros k Hk. simpl in Hk. apply elem_of_cons in Hk as [->|Hk].
      * apply list_elem_of_here.
      * apply list_elem_of_further. by apply Hsub.
    + intros k Hk Hin. simpl. apply elem_of_cons in Hin as [->|Hin].
      * apply list_elem_of_here.
      * apply list_elem_of_further. by apply Hkeep.
Qed.

(** Every parameter the keyword pass gets to see is one of the signature. *)
Lemma bind_positional_remaining (parameters : list FormalParameter) (args : list Value)
    (kwargs : dict Value) (arguments arguments' : dict Value)
    (remaining : list FormalParameter) :
  bind_positional parameters args kwargs arguments = Ok (arguments', remaining) →
  ∀ p, p ∈ remaining → p ∈ parameters.
Proof.
  revert parameters arguments. induction args as [|a args IH]; intros parameters arguments.
  - destruct parameters as [|param rest]; simpl.
    + intros [= <- <-]. done.
    + destruct (kind_eqb (param_kind param) VAR_POSITIONAL).
      { intros [= <- <-] p Hp. by apply list_elem_of_further. }
      destruct (dict_has kwargs (param_name param)).
      { destruct (kind_eqb (param_kind param) POSITIONAL_ONLY); [discriminate|].
        intros [= <- <-]. done. }
      destruct (_ || _); [|discriminate]. intros [= <- <-]. done.
  - destruct parameters as [|param rest]; simpl; [discriminate|].
    destruct (_ || _); [discriminate|].
    destruct (kind_eqb (param_kind param) VAR_POSITIONAL).
    { intros [= <- <-] p Hp. by apply list_elem_of_further. }
    destruct (_ && _); [discriminate|].
    intros H p Hp. apply list_elem_of_further. by eapply IH.
Qed.

Lemma bind_keywords_unknown (parameters : list FormalParameter) (kwargs : dict Value)
    (arguments : dict Value) (k : string) :
  (∀ p, p ∈ parameters → param_kind p ≠ VAR_KEYWORD) →
  k ∈ dict_keys kwargs →
  k ∉ map param_name parameters →
  ∃ msg, bind_keywords parameters kwargs None arguments = Raise (TypeError msg).
Proof.
  revert kwargs arguments.
  induction parameters as [|param rest IH]; intros kwargs arguments Hkind Hk Hnot; simpl.
  - destruct kwargs; [by apply elem_of_nil in Hk | by eexists].
  - simpl in Hnot. apply not_elem_of_cons in Hnot as [Hne Hnot].
    assert (Hrest : ∀ p, p ∈ rest → param_kind p ≠ VAR_KEYWORD)
      by (intros p Hp; by apply Hkind, list_elem_of_further).
    rewrite (kind_eqb_ne _ VAR_KEYWORD) by apply Hkind, list_elem_of_here.
    destruct (kind_eqb (param_kind param) VAR_POSITIONAL); [by apply IH|].
    destruct (dict_pop kwargs (param_name param)) as [[v kwargs']|] eqn:Hpop.
    + destruct (kind_eqb (param_kind param) POSITIONAL_ONLY); [by eexists|].
      apply IH; [done| |done].
      apply (proj2 (dict_pop_keys _ _ _ _ Hpop)); [congruence | done].
    + destruct (bool_decide _); [by apply IH | by eexists].
Qed.

Lemma bind_keywords_missing (parameters : list FormalParameter) (kwargs : dict Value)
    (kwargs_param : option FormalParameter) (arguments : dict Value) (p : FormalParameter) :
  p ∈ parameters →
  param_kind p ≠ VAR_POSITIONAL → param_kind p ≠ VAR_KEYWORD →
  param_default p = None →
  param_name p ∉ dict_keys kwargs →
  ∃ msg, bind_keywords parameters kwargs kwargs_param arguments = Raise (TypeError msg).
Proof.
  intros Hin Hvp Hvk Hdef. revert kwargs kwargs_param arguments.
  induction parameters as [|param rest IH]; intros kwargs kwargs_param arguments Hname;
    [by apply elem_of_nil in Hin|].
  simpl. apply elem_of_cons in Hin as [<-|Hin].
  - rewrite !kind_eqb_ne by done. rewrite dict_pop_None by done.
    rewrite Hdef. by eexists.
  - destruct (kind_eqb (param_kind param) VAR_KEYWORD); [by apply IH|].
    destruct (kind_eqb (param_kind param) VAR_POSITIONAL); [by apply IH|].
    destruct (dict_pop kwargs (param_name param)) as [[v kwargs']|] eqn:Hpop.
    + destruct (kind_eqb (param_kind param) POSITIONAL_ONLY); [by eexists|].
      apply IH; [done|]. intros Hk. apply Hname.
      exact (proj1 (dict_pop_keys _ _ _ _ Hpop) _ Hk).
    + destruct (bool_decide _); [by apply IH | by eexists].
Qed.

Lemma bind_positional_too_many (parameters : list FormalParameter) (args : list Value)
    (kwargs : dict Value) (arguments : dict Value) :
  (∀ p, p ∈ parameters → param_kind p ≠ VAR_POSITIONAL) →
  (length (filter (fun p => positional p = true) parameters) < length args)%nat →
  ∃ msg, bind_positional parameters args kwargs arguments = Raise (TypeError msg).
Proof.
  revert parameters arguments.
  induction args as [|a args IH]; intros parameters arguments Hkind Hlen;
    [simpl in Hlen; lia|].
  destruct parameters as [|param rest]; simpl; [by eexists|].
  destruct (_ || _) eqn:Hkw; [by eexists|].
  rewrite (kind_eqb_ne _ VAR_POSITIONAL) by apply Hkind, list_elem_of_here.
  destruct (_ && _); [by eexists|].
  apply IH.
  - intros p Hp. by apply Hkind, list_elem_of_further.
  - simpl in Hlen. destruct (decide (positional param = true)) as [Hp|Hp].
    + rewrite filter_cons_True in Hlen by done. simpl in Hlen.
      exact (proj2 (Nat.succ_lt_mono _ _) Hlen).
    + exfalso. apply Hp. pose proof (Hkind param (list_elem_of_here _ _)) as Hvp.
      unfold positional. destruct (param_kind param); simpl in *; done.
Qed.

Lemma bind_positional_missing (parameters : list FormalParameter) (args : list Value)
    (kwargs : dict Value) (arguments : dict Value) (i : nat) (p : FormalParameter) :
  parameters !! i = Some p →
  (length args ≤ i)%nat →
  param_kind p ≠ VAR_POSITIONAL → param_kind p ≠ VAR_KEYWORD →
  param_default p = None →
  param_name p ∉ dict_keys kwargs →
  match bind_positional parameters args kwargs arguments with
  | Raise e => ∃ msg, e = TypeError msg
  | Ok (_, remaining) => p ∈ remaining
  end.
Proof.
  intros Hp Hlen Hvp Hvk Hdef Hname. revert parameters arguments i Hp Hlen.
  induction args as [|a args IH]; intros parameters arguments i Hp Hlen.
  - destruct parameters as [|param rest]; [discriminate|]. simpl.
    destruct i as [|i]; simpl in Hp.
    + injection Hp as ->.
      rewrite (kind_eqb_ne _ VAR_POSITIONAL), (kind_eqb_ne _ VAR_KEYWORD) by done.
      rewrite dict_has_false by done. rewrite Hdef. simpl. by eexists.
    + apply list_elem_of_lookup_2 in Hp.
      destruct (kind_eqb (param_kind param) VAR_POSITIONAL); [done|].
      destruct (dict_has kwargs (param_name param)).
      { destruct (kind_eqb (param_kind param) POSITIONAL_ONLY);
          [by eexists | by apply list_elem_of_further]. }
      destruct (_ || _); [by apply list_elem_of_further | by eexists].
  - destruct parameters as [|param rest]; [discriminate|]. simpl.
    destruct i as [|i]; [simpl in Hlen; lia|]. simpl in Hp, Hlen.
    destruct (_ || _); [by eexists|].
    destruct (kind_eqb (param_kind param) VAR_POSITIONAL);
      [by eapply list_elem_of_lookup_2|].
    destruct (_ && _); [by eexists|].
    apply (IH rest _ i); [done | lia].
Qed.

Lemma bind_positional_raises (parameters : list FormalParameter) (args : list Value)
    (kwargs : dict Value) (arguments : dict Value) (e : Exc) :
  bind_positional parameters args kwargs arguments = Raise e → ∃ msg, e = TypeError msg.
Proof.
  revert parameters arguments. induction args as [|a args IH]; intros parameters arguments.
  - destruct parameters as [|param rest]; simpl; [discriminate|].
    repeat (match goal with |- context [if ?b then _ else _] => destruct b end);
      intros [= <-] || discriminate; by eexists.
  - destruct parameters as [|param rest]; simpl; [intros [= <-]; by eexists|].
    repeat (match goal with |- context [if ?b then _ else _] => destruct b end);
      try (intros [= <-]; by eexists); try discriminate. apply IH.
Qed.

(** The three ways a call can miss the formal parameters all make
    [inspect.Signature.bind] raise a [TypeError]. *)
Lemma signature_bind_rejects (parameters : list FormalParameter)
    (args : list Value) (kwargs : dict Value) :
  unknown_keyword parameters kwargs
  ∨ missing_required parameters args kwargs
  ∨ too_many_positional parameters args →
  ∃ msg, signature_bind parameters args kwargs = Raise (TypeError msg).
Proof.
  unfold signature_bind.
  intros [[Hkind (k & Hk & Hnot)] | [(i & p & Hp & Hlen & Hvp & Hvk & Hdef & Hname) | [Hkind Hlen]]].
  - destruct (bind_positional parameters args kwargs []) as [[bound remaining]|e] eqn:E;
      simpl.
    + pose proof (bind_positional_remaining _ _ _ _ _ _ E) as Hsub.
      destruct (bind_keywords_unknown remaining kwargs bound k) as [msg ->];
        [| done | | by eexists].
      * intros q Hq. by apply Hkind, Hsub.
      * intros Hin. apply Hnot. apply list_elem_of_fmap in Hin as (q & -> & Hq).
        apply list_elem_of_fmap. exists q. split; [done | by apply Hsub].
    + apply bind_positional_raises in E as [msg ->]. by eexists.
  - pose proof (bind_positional_missing parameters args kwargs [] i p
                  Hp Hlen Hvp Hvk Hdef Hname) as H.
    destruct (bind_positional parameters args kwargs []) as [[bound remaining]|e]; simpl.
    + destruct (bind_keywords_missing remaining kwargs None bound p) as [msg ->];
        [done..|by eexists].
    + destruct H as [msg ->]. by eexists.
  - destruct (bind_positional_too_many parameters args kwargs [] Hkind Hlen) as [msg ->].
    by eexists.
Qed.

(** C7: when the call arguments carry an unknown keyword, leave a required
    parameter unfilled or hold too many positional arguments, the bound
    method raises the binder's [TypeError] and the world is as it was: the
    transport has received nothing. *)
Theorem binding_error_before_transport (base : BaseHttpxBackend) (method : MemberObject)
    (signature : Signature) (service : nat) (args : list Value) (kwargs : dict Value)
    (w : Runtime) :
  from_method method = Ok signature →
  unknown_keyword (get_signature method) kwargs
  ∨ missing_required (get_signature method) (VRef service :: args) kwargs
  ∨ too_many_positional (get_signature method) (VRef service :: args) →
  ∃ msg,
    call (bind_method base signature) service args kwargs w = (Raise (TypeError msg), w)
    ∧ transport_calls (snd (call (bind_method base signature) service args kwargs w))
      = transport_calls w.
Proof.
  intros Hsig Hbad.
  apply from_method_Ok in Hsig as (hints & _ & _ & _ & _ & Hbind & _).
  apply signature_bind_rejects in Hbad as [msg Hraise].
  exists msg.
  assert (Hcall : call (bind_method base signature) service args kwargs w
                  = (Raise (TypeError msg), w)).
  { simpl. unfold bound_method, and_then, lift, build_request.
    rewrite Hbind, Hraise. reflexivity. }
  rewrite Hcall. done.
Qed.

Lemma binding_error_before_transport_witness :
  match from_method (FunctionObject Httpbin.get_anything) with
  | Ok signature =>
      ∃ msg,
        call (bind_method Httpbin.base signature) 1 []
             [("foo", VInt 100500); ("bar", VInt 100501); ("baz", VInt 0)]
             (Httpbin.world_with Httpbin.httpbin)
        = (Raise (TypeError msg), Httpbin.world_with Httpbin.httpbin)
  | Raise _ => False
  end.
Proof.
  destruct (from_method (FunctionObject Httpbin.get_anything)) as [signature|e] eqn:E;
    [|discriminate E].
  destruct (binding_error_before_transport Httpbin.base _ signature 1 []
              [("foo", VInt 100500); ("bar", VInt 100501); ("baz", VInt 0)]
              (Httpbin.world_with Httpbin.httpbin) E) as (msg & H & _).
  - left. split.
    + intros p Hp. simpl in Hp.
      repeat (apply elem_of_cons in Hp as [->|Hp]; [done|]).
      by apply elem_of_nil in Hp.
    + exists "baz". split.
      * apply (bool_decide_unpack _). vm_compute. exact I.
      * apply (bool_decide_unpack _). vm_compute. exact I.
  - by exists msg.
Defined.

(** The three kinds of misuse, on [get_anything] of the tests. *)
Example get_anything_unknown_keyword :
  signature_bind (fun_parameters Httpbin.get_anything) [VRef 1]
    [("foo", VInt 100500); ("bar", VInt 100501); ("baz", VInt 0)]
  = Raise (TypeError "got an unexpected keyword argument").
Proof. reflexivity. Qed.

Example get_anything_missing_required :
  signature_bind (fun_parameters Httpbin.get_anything) [VRef 1] [("foo", VInt 100500)]
  = Raise (TypeError "missing a required argument").
Proof. reflexivity. Qed.

Example get_anything_too_many_positional :
  signature_bind (fun_parameters Httpbin.get_anything)
    [VRef 1; VInt 100500; VInt 100501; VInt 0] []
  = Raise (TypeError "too many positional arguments").
Proof. reflexivity. Qed.

(** ** Placing arguments into the request *)

Lemma values_under_app (name : string) (l1 l2 : list (string * Value)) :
  values_under name (l1 ++ l2) = values_under name l1 ++ values_under name l2.
Proof. unfold values_under. apply omap_app. Qed.

Lemma slot_apply_marker (location : Location) (marker : ParameterMarker)
    (request : Request) (value : Value) :
  slot location (apply_marker marker request value)
  = slot location request
    ++ (if location_eqb (fst (target marker)) location
        then [(snd (target marker), value)] else []).
Proof. destruct marker, location; simpl; by rewrite ?app_nil_r. Qed.

Lemma place_values_under (all_arguments : dict Value) (location : Location) (name : string)
    (request : Request) (bound_marker : BoundParameterMarker) :
  values_under name (slot location (place all_arguments request bound_marker))
  = values_under name (slot location request)
    ++ (if targets location name bound_marker
        then option_list (dict_get all_arguments (bpm_name bound_marker))
        else []).
Proof.
  unfold place, targets.
  destruct (dict_get all_arguments (bpm_name bound_marker)) as [value|]; simpl.
  - rewrite slot_apply_marker, values_under_app. f_equal.
    destruct (location_eqb _ location); simpl; [|reflexivity].
    unfold values_under. simpl. by destruct (String.eqb _ name).
  - by destruct (_ && _); rewrite app_nil_r.
Qed.

Lemma fold_place_values_under (all_arguments : dict Value) (location : Location)
    (name : string) (markers : list BoundParameterMarker) (request : Request) :
  values_under name (slot location (fold_left (place all_arguments) markers request))
  = values_under name (slot location request)
    ++ omap (fun bm => dict_get all_arguments (bpm_name bm))
            (filter (fun bm => targets location name bm = true) markers).
Proof.
  revert request. induction markers as [|bm markers IH]; intros request; simpl.
  - by rewrite app_nil_r.
  - rewrite IH, place_values_under, <- app_assoc. f_equal.
    destruct (targets location name bm) eqn:T.
    + rewrite filter_cons_True by done. simpl.
      by destruct (dict_get all_arguments (bpm_name bm)).
    + rewrite filter_cons_False by (rewrite T; done). reflexivity.
Qed.



(** [test_query_params], end to end against a server that echoes the
    query string: both values arrive under "foobar", in order. *)
Example get_anything_sends_both_values :
  match from_method (FunctionObject Httpbin.get_anything) with
  | Ok signature =>
      map (fun c => values_under "foobar" <$> cr_params c)
          (transport_calls
             (snd (call (bind_method Httpbin.base signature) 1
                        [VInt 100500; VInt 100501] []
                        (Httpbin.world_with Httpbin.httpbin))))
      = [Some [VInt 100500; VInt 100501]]
  | Raise _ => False
  end.
Proof. vm_compute. reflexivity. Qed.

(** ** Headers and the asynchronous backend *)

(** Whatever the request holds, [__call__] hands the client no headers and
    no form data. *)
Lemma HttpxBackend_call_drops_headers (request : Request) :
  cr_headers (request_arguments request) = None
  ∧ cr_data (request_arguments request) = None.
Proof. done. Qed.

(** C4 on the code: [get_headers(foo="fooval")] of [test_headers_async].
    The request that is built holds [x-foo] and, from the default, [x-bar];
    the call succeeds; and the one request the transport receives carries no
    headers at all. *)
Theorem get_headers_default_not_sent :
  match from_method (FunctionObject Httpbin.get_headers) with
  | Ok signature =>
      match build_request signature 1 [] [("foo", VStr "fooval")] with
      | Ok request => headers request = [("x-foo", VStr "fooval"); ("x-bar", VStr "barval")]
      | Raise _ => False
      end
      ∧ let outcome :=
          call (bind_method Httpbin.base signature) 1 [] [("foo", VStr "fooval")]
               (Httpbin.world_with Httpbin.httpbin) in
        is_ok (fst outcome) = true
        ∧ map cr_headers (transport_calls (snd outcome)) = [None]
  | Raise _ => False
  end.
Proof. vm_compute. done. Qed.

(** ** Bound service instances *)

Lemma HttpxBackend_call_objects (base : BaseHttpxBackend) (self : nat) (request : Request)
    (response_type : Annotation) (response_extractors : ResponseExtractors) (w : Runtime) :
  objects (snd (HttpxBackend_call base self request response_type response_extractors w))
  = objects w.
Proof.
  unfold HttpxBackend_call, and_then, get_backend, lift, raise_for_status, emit, ret, raise.
  destruct (objects w !! self) as [[client cm|c a]|]; simpl; try reflexivity.
  destruct (client (request_arguments request)) as [response|e]; simpl; [|reflexivity].
  destruct (is_success response); reflexivity.
Qed.

Lemma bound_method_objects (base : BaseHttpxBackend) (signature : Signature)
    (response_extractors : ResponseExtractors)
    (service : nat) (args : list Value) (kwargs : dict Value) (w : Runtime) :
  objects (snd (bound_method base signature response_extractors service args kwargs w))
  = objects w.
Proof.
  unfold bound_method, async_with, and_then, lift, get_backend_attribute, get_backend.
  destruct (build_request signature service args kwargs) as [request|e]; [|reflexivity].
  destruct (objects w !! service) as [[client cm|c attributes]|]; try reflexivity.
  destruct (attributes !! "backend") as [[| | | | |backend]|]; try reflexivity.
  destruct (objects w !! backend) as [[client cm|c' a']|]; try reflexivity.
  cbn [fst snd emit objects].
  match goal with
  | |- context [HttpxBackend_call ?b ?s ?r ?t ?x ?w0] =>
      pose proof (HttpxBackend_call_objects b s r t x w0) as Hobj;
      destruct (HttpxBackend_call b s r t x w0) as [[v|e] w']
  end; cbn [fst snd objects] in *; exact Hobj.
Qed.

Lemma bind_objects (from_protocol : Class) (to_backend : ProvidesBinder) (e : Engine) :
  match fst (bind from_protocol to_backend e) with
  | Raise _ => world (snd (bind from_protocol to_backend e)) = world e
  | Ok self =>
      objects (world e) !! self = None
      ∧ ∃ class_id,
          objects (world (snd (bind from_protocol to_backend e)))
          = <[self := ServiceObject class_id {["backend" := VRef (backend_ref to_backend)]}]>
              (objects (world e))
  end.
Proof.
  unfold bind.
  destruct (bind_class from_protocol (binder to_backend) (binding e)) as [[cls|exc] st];
    [|reflexivity].
  destruct (BaseBoundService_init_spec cls (backend_ref to_backend) (world e))
    as (Hfresh & Hobj & _).
  destruct (BaseBoundService_init cls (backend_ref to_backend) (world e)) as [self w] eqn:E.
  cbn [fst snd world] in *. split; [exact Hfresh|]. by eexists.
Qed.

Lemma step_objects (base : BaseHttpxBackend) (e e' : Engine) :
  step base e e' →
  holds_only_backend (world e) →
  holds_only_backend (world e')
  ∧ ∀ loc class_id attributes,
      objects (world e) !! loc = Some (ServiceObject class_id attributes) →
      objects (world e') !! loc = Some (ServiceObject class_id attributes).
Proof.
  intros Hstep Hinv. destruct Hstep as [I f e|I B e|signature service args kwargs e].
  - done.
  - pose proof (bind_objects I B e) as H.
    destruct (fst (bind I B e)) as [self|exc].
    + destruct H as (Hfresh & class_id & Hobj). split.
      * intros loc c a. rewrite Hobj. intros Hloc.
        apply lookup_insert_Some in Hloc as [[<- Heq]|[Hne Hloc]].
        -- injection Heq as <- <-. by eexists.
        -- by eapply Hinv.
      * intros loc c a Hloc. rewrite Hobj. rewrite lookup_insert_ne; [done|].
        intros <-. congruence.
    + rewrite H. done.
  - cbn [world call bind_method]. unfold holds_only_backend.
    rewrite bound_method_objects. done.
Qed.

(** C9: through any sequence of engine operations, every bound service
    instance holds the one attribute [backend] and nothing else; an instance
    that exists keeps its attributes unchanged; and [bind] creates its
    instance with [backend] set to the backend it was given. *)
Theorem service_holds_only_backend (base : BaseHttpxBackend) (e e' : Engine) :
  rtc (step base) e e' →
  holds_only_backend (world e) →
  holds_only_backend (world e')
  ∧ (∀ loc class_id attributes,
        objects (world e) !! loc = Some (ServiceObject class_id attributes) →
        objects (world e') !! loc = Some (ServiceObject class_id attributes))
  ∧ (∀ from_protocol to_backend self e'',
        bind from_protocol to_backend e' = (Ok self, e'') →
        attributes_of (world e'') self
        = Some {["backend" := VRef (backend_ref to_backend)]}).
Proof.
  intros Hsteps Hinv.
  assert (Hboth :
    holds_only_backend (world e')
    ∧ ∀ loc class_id attributes,
        objects (world e) !! loc = Some (ServiceObject class_id attributes) →
        objects (world e') !! loc = Some (ServiceObject class_id attributes)).
  { induction Hsteps as [e|e e1 e2 Hstep Hsteps IH]; [done|].
    destruct (step_objects base e e1 Hstep Hinv) as [Hinv1 Hkeep1].
    destruct (IH Hinv1) as [Hinv2 Hkeep2]. split; [exact Hinv2|].
    intros loc c a Hloc. by apply Hkeep2, Hkeep1. }
  destruct Hboth as [Hinv' Hkeep]. split; [exact Hinv'|]. split; [exact Hkeep|].
  intros I B self e'' Hbind. pose proof (bind_objects I B e') as H.
  rewrite Hbind in H. cbn [fst snd] in H. destruct H as (_ & class_id & Hobj).
  unfold attributes_of. by rewrite Hobj, lookup_insert_eq.
Qed.

Lemma service_holds_only_backend_witness :
  let e1 := snd (bind Httpbin.SupportsHttpbin Httpbin.backend Httpbin.engine) in
  let e2 :=
    {| binding := binding e1;
       world := snd (call (bind_method Httpbin.base Httpbin.get_status_signature)
                          1 [] [] (world e1)) |} in
  holds_only_backend (world e2)
  ∧ attributes_of (world e2) 1 = Some {["backend" := VRef 0]}.
Proof.
  intros e1 e2.
  destruct (service_holds_only_backend Httpbin.base Httpbin.engine e2) as (Hinv & Hkeep & _).
  - eapply rtc_l; [apply (step_bind _ Httpbin.SupportsHttpbin Httpbin.backend)|].
    eapply rtc_l; [apply (step_call _ Httpbin.get_status_signature 1 [] [])|].
    apply rtc_refl.
  - intros loc c a H. simpl in H. apply lookup_singleton_Some in H as [_ H]. discriminate H.
  - split; [exact Hinv|]. vm_compute. reflexivity.
Defined.

(** * Further properties *)

(** ** Annotations and signatures *)

Lemma eval_annotations_Ok (raw : dict AnnotationSource) (hints : dict Annotation) :
  eval_annotations raw = Ok hints →
  raw = map (fun h : string * Annotation => (fst h, Evaluates (snd h))) hints.
Proof.
  revert hints. induction raw as [|[name [a|x]] raw IH]; intros hints; simpl.
  - by intros [= <-].
  - destruct (eval_annotations raw) as [rest|e]; simpl; [|discriminate].
    intros [= <-]. simpl. f_equal. by apply IH.
  - discriminate.
Qed.

Lemma dict_get_evaluated (hints : dict Annotation) (k : string) :
  dict_get (map (fun h : string * Annotation => (fst h, Evaluates (snd h))) hints) k
  = Evaluates <$> dict_get hints k.
Proof.
  induction hints as [|[n a] hints IH]; simpl; [done|].
  destruct (String.eqb n k); [done | exact IH].
Qed.

Lemma eval_annotations_unresolved (pre post : dict AnnotationSource)
    (name x : string) :
  Forall evaluates pre →
  eval_annotations (pre ++ (name, Unresolved x) :: post) = Raise (NameError x).
Proof.
  induction pre as [|[n src] pre IH]; intros Hpre; simpl; [reflexivity|].
  apply Forall_cons in Hpre as [[a Ha] Hpre]. simpl in Ha. subst src.
  by rewrite IH.
Qed.

(** X1: an annotation that names something that does not resolve makes the
    extraction of the signature fail, at binding time, with the [NameError]
    of that name: the first such annotation decides, whatever follows it. *)
Theorem from_method_unresolved_annotation (method : MemberObject) (f : PyFunction)
    (pre post : dict AnnotationSource) (name x : string) :
  underlying method = Some f →
  fun_annotations f = pre ++ (name, Unresolved x) :: post →
  Forall evaluates pre →
  from_method method = Raise (NameError x).
Proof.
  intros Hf Hann Hpre. unfold from_method, get_annotations.
  rewrite Hf, Hann, eval_annotations_unresolved by exact Hpre. reflexivity.
Qed.

Lemma from_method_unresolved_annotation_witness :
  from_method (FunctionObject Samples.get_broken) = Raise (NameError "Respnse").
Proof.
  apply (from_method_unresolved_annotation (FunctionObject Samples.get_broken)
           Samples.get_broken
           [("foo", Httpbin.annotated "int" (QueryParam "foo"))] [] "return" "Respnse").
  - reflexivity.
  - reflexivity.
  - constructor; [|constructor]. by eexists.
Defined.

(** X2: the signature lists one bound parameter marker for every parameter
    marker of every annotation, the return annotation included: the names
    come in annotation order, each as often as its annotation has markers,
    and a marker is listed under a name exactly when an annotation of that
    name carries it. *)
Theorem parameter_markers_one_per_marker (method : MemberObject) (signature : Signature) :
  from_method method = Ok signature →
  ∃ type_hints,
    get_annotations method = Ok type_hints
    ∧ map bpm_name (parameter_markers signature)
      = concat (map (fun h : string * Annotation =>
                       replicate (length (extract_parameter_markers (ann_metadata (snd h))))
                                 (fst h))
                    type_hints)
    ∧ ∀ name marker,
        {| bpm_name := name; bpm_marker := marker |} ∈ parameter_markers signature
        ↔ ∃ annotation,
            (name, annotation) ∈ type_hints
            ∧ MetaParameter marker ∈ ann_metadata annotation.
Proof.
  intros H. apply from_method_Ok in H as (hints & Hhints & _ & -> & _).
  exists hints. split; [exact Hhints|]. clear Hhints. split.
  - induction hints as [|[n a] hints IH]; simpl; [done|].
    rewrite map_app, IH. f_equal. rewrite map_map. simpl.
    generalize (extract_parameter_markers (ann_metadata a)). intros l.
    induction l as [|m l IHl]; simpl; [done | by f_equal].
  - intros name marker. induction hints as [|[n a] hints IH]; simpl.
    + split; [intros H; by apply elem_of_nil in H|].
      intros (annotation & H & _). by apply elem_of_nil in H.
    + rewrite elem_of_app, IH, list_elem_of_fmap. split.
      * intros [(m & Heq & Hm)|(annotation & Hin & Hmeta)].
        -- injection Heq as -> ->. exists a. split; [apply list_elem_of_here|].
           unfold extract_parameter_markers in Hm. apply list_elem_of_omap in Hm.
           destruct Hm as (md & Hmd & Hsome). destruct md; simplify_eq. done.
        -- exists annotation. split; [by apply list_elem_of_further | done].
      * intros (annotation & Hin & Hmeta). apply elem_of_cons in Hin as [Heq|Hin].
        -- injection Heq as -> ->. left. exists marker. split; [done|].
           unfold extract_parameter_markers. apply list_elem_of_omap.
           by exists (MetaParameter marker).
        -- right. by exists annotation.
Qed.

Lemma parameter_markers_one_per_marker_witness :
  match from_method (FunctionObject Samples.search) with
  | Ok signature => map bpm_name (parameter_markers signature) = ["term"; "term"]
  | Raise _ => False
  end.
Proof.
  destruct (from_method (FunctionObject Samples.search)) as [signature|e] eqn:E;
    [|discriminate E].
  destruct (parameter_markers_one_per_marker _ _ E) as (hints & Hhints & -> & _).
  vm_compute in Hhints. injection Hhints as <-. reflexivity.
Defined.

(** X3: the return type of the signature is the method's [return] annotation,
    and [SuccessfulResponse] when the method has none. *)
Theorem from_method_return_type (method : MemberObject) (f : PyFunction)
    (signature : Signature) :
  underlying method = Some f →
  from_method method = Ok signature →
  match dict_get (fun_annotations f) "return" with
  | None => return_type signature = SuccessfulResponse
  | Some source => source = Evaluates (return_type signature)
  end.
Proof.
  intros Hf H. apply from_method_Ok in H as (hints & Hhints & -> & _).
  unfold get_annotations in Hhints. rewrite Hf in Hhints.
  apply eval_annotations_Ok in Hhints. rewrite Hhints, dict_get_evaluated.
  unfold _extract_return_type. by destruct (dict_get hints "return").
Qed.

Lemma from_method_return_type_witness :
  match from_method (FunctionObject Samples.search) with
  | Ok signature => return_type signature = SuccessfulResponse
  | Raise _ => False
  end.
Proof.
  destruct (from_method (FunctionObject Samples.search)) as [signature|e] eqn:E;
    [|discriminate E].
  exact (from_method_return_type (FunctionObject Samples.search) Samples.search
           signature eq_refl E).
Defined.

(** ** The bound class *)

Lemma install_methods_outcome (method_binder : MethodBinder)
    (methods : list (string * MemberObject)) (namespace : dict Callable) :
  match install_methods method_binder methods namespace with
  | Ok _ => ∀ name method, (name, method) ∈ methods → is_ok (from_method method) = true
  | Raise e => ∃ name method, (name, method) ∈ methods ∧ from_method method = Raise e
  end.
Proof.
  revert namespace. induction methods as [|[n m] methods IH]; intros namespace; simpl.
  - intros name method H. by apply elem_of_nil in H.
  - destruct (from_method m) as [signature|e] eqn:E; simpl.
    + specialize (IH (dict_set namespace n
                        (update_wrapper
                           (_wrap (binder_call method_binder signature)
                                  (method_markers signature)) m))).
      destruct (install_methods _ _ _) as [namespace'|e].
      * intros name method H. apply elem_of_cons in H as [Heq|H].
        -- injection Heq as -> ->. by rewrite E.
        -- by eapply IH.
      * destruct IH as (name & method & Hin & Hraise).
        exists name, method. split; [by apply list_elem_of_further | done].
    + exists n, m. split; [apply list_elem_of_here | done].
Qed.

(** X4: [bind_class] returns a class only for an interface whose metaclass
    provides [__abstractmethods__], as that of every [Protocol] does, and
    only when a signature could be extracted from every enumerated method:
    for any other interface the body does not return. *)
Theorem bind_class_body_requires (identity : nat) (from_protocol : Class)
    (method_binder : MethodBinder) (cls : BoundClass) :
  bind_class_body identity from_protocol method_binder = Ok cls →
  class_abc from_protocol = true
  ∧ ∀ name method,
      (name, method) ∈ _enumerate_methods from_protocol →
      ∃ signature, from_method method = Ok signature.
Proof.
  intros Hbody. apply bind_class_body_Ok in Hbody as (Hinst & _ & _ & Habc).
  split; [exact Habc|]. intros name method Hin.
  pose proof (install_methods_outcome method_binder (_enumerate_methods from_protocol) [])
    as H.
  rewrite Hinst in H. specialize (H name method Hin).
  destruct (from_method method) as [signature|e]; [by exists signature | discriminate].
Qed.

Lemma bind_class_body_requires_witness :
  match bind_class_body 0 Httpbin.SupportsHttpbin (binder Httpbin.backend) with
  | Ok _ => class_abc Httpbin.SupportsHttpbin = true
  | Raise _ => False
  end.
Proof.
  destruct (bind_class_body 0 Httpbin.SupportsHttpbin (binder Httpbin.backend))
    as [cls|e] eqn:E; [|vm_compute in E; discriminate E].
  exact (proj1 (bind_class_body_requires _ _ _ _ E)).
Defined.

(** A class whose metaclass is plain [type] cannot be bound. *)
Example plain_class_is_not_bound :
  bind_class_body 0 Samples.Plain (binder Httpbin.backend)
  = Raise (AttributeError "__abstractmethods__").
Proof. reflexivity. Qed.

(** X5: the class that [bind_class] returns is named after the protocol, has
    lost its [__abstractmethods__], and keeps the identity and the protocol
    it was created with; a second [_update_bound_service] on it raises
    [AttributeError], for there is nothing left to delete. *)
Theorem bound_class_is_renamed (identity : nat) (from_protocol : Class)
    (method_binder : MethodBinder) (cls : BoundClass) :
  bind_class_body identity from_protocol method_binder = Ok cls →
  bound_name cls = "BoundService[" +:+ class_name from_protocol +:+ "]"
  ∧ bound_qualname cls
    = "bind_class.<locals>.BoundService[" +:+ class_qualname from_protocol +:+ "]"
  ∧ bound_abstractmethods cls = false
  ∧ bound_identity cls = identity
  ∧ bound_protocol cls = from_protocol
  ∧ ∀ with_protocol,
      _update_bound_service cls with_protocol = Raise (AttributeError "__abstractmethods__").
Proof.
  unfold bind_class_body.
  destruct (install_methods _ _ _) as [namespace|e]; simpl; [|discriminate].
  unfold _update_bound_service. simpl.
  destruct (class_abc from_protocol); simpl; [|discriminate].
  intros [= <-]. simpl. done.
Qed.

Lemma bound_class_is_renamed_witness :
  match bind_class_body 0 Samples.SupportsSearch (binder Httpbin.backend) with
  | Ok cls =>
      bound_name cls = "BoundService[SupportsSearch]"
      ∧ bound_qualname cls = "bind_class.<locals>.BoundService[tests.SupportsSearch]"
  | Raise _ => False
  end.
Proof.
  destruct (bind_class_body 0 Samples.SupportsSearch (binder Httpbin.backend))
    as [cls|e] eqn:E; [|vm_compute in E; discriminate E].
  destruct (bound_class_is_renamed _ _ _ _ E) as (Hname & Hqual & _).
  by rewrite Hname, Hqual.
Defined.

Lemma enumerated_is_function (of_protocol : Class) (name : string) (method : MemberObject) :
  (name, method) ∈ _enumerate_methods of_protocol → ∃ f, underlying method = Some f.
Proof.
  intros H. apply _enumerate_methods_spec in H as (_ & Hcallable & _).
  destruct method; simpl in *; [by eexists.. | discriminate].
Qed.

(** X6: every installed method carries the name and the docstring of the
    protocol's method it implements, and behaves as the binder's callable
    wrapped by the method markers. *)
Theorem installed_method_keeps_metadata (identity : nat) (from_protocol : Class)
    (method_binder : MethodBinder) (cls : BoundClass)
    (name : string) (method : MemberObject) :
  bind_class_body identity from_protocol method_binder = Ok cls →
  (name, method) ∈ _enumerate_methods from_protocol →
  ∃ f signature implementation,
    underlying method = Some f
    ∧ from_method method = Ok signature
    ∧ dict_get (bound_dict cls) name = Some implementation
    ∧ fn_name implementation = fun_name f
    ∧ fn_doc implementation = fun_doc f
    ∧ call implementation
      = call (_wrap (binder_call method_binder signature) (method_markers signature)).
Proof.
  intros Hbody Hin. destruct (enumerated_is_function _ _ _ Hin) as [f Hf].
  apply bind_class_body_Ok in Hbody as (Hinst & _ & _ & _).
  apply install_methods_spec in Hinst as (_ & _ & Hall).
  - apply Hall in Hin as (signature & Hsig & Hget).
    exists f, signature, (installed method_binder method signature).
    unfold installed, update_wrapper in *. rewrite Hf in *.
    rewrite <- _wrap_fold_left in *. done.
  - apply _enumerate_methods_NoDup.
  - intros n _. apply not_elem_of_nil.
Qed.

Lemma installed_method_keeps_metadata_witness :
  match bind_class_body 0 Samples.SupportsSearch (binder Httpbin.backend) with
  | Ok cls =>
      ∃ implementation,
        dict_get (bound_dict cls) "search" = Some implementation
        ∧ fn_name implementation = "search"
        ∧ fn_doc implementation = "Search the index."
  | Raise _ => False
  end.
Proof.
  destruct (bind_class_body 0 Samples.SupportsSearch (binder Httpbin.backend))
    as [cls|e] eqn:E; [|vm_compute in E; discriminate E].
  destruct (installed_method_keeps_metadata _ _ _ _ "search"
              (FunctionObject Samples.search) E)
    as (f & signature & implementation & Hf & _ & Hget & Hname & Hdoc & _).
  - apply _enumerate_methods_spec. repeat split; try reflexivity.
    apply (bool_decide_unpack _). vm_compute. exact I.
  - injection Hf as <-. by exists implementation.
Defined.

(** X7: a name is enumerated once, and with the member of the class's own
    namespace when it has one there: a protocol that overrides an inherited
    method gets its own version bound. *)
Theorem enumerate_methods_nearest_definition (of_protocol : Class)
    (name : string) (method : MemberObject) (own : Member) :
  (name, method) ∈ _enumerate_methods of_protocol →
  dict_get (class_dict of_protocol) name = Some own →
  method = resolve own
  ∧ NoDup (map fst (_enumerate_methods of_protocol)).
Proof.
  intros Hin Hown. split; [|apply _enumerate_methods_NoDup].
  apply _enumerate_methods_spec in Hin as (Hget & _).
  unfold getattr, mro_namespaces in Hget. simpl in Hget. rewrite Hown in Hget.
  simpl in Hget. by injection Hget as <-.
Qed.

Lemma enumerate_methods_nearest_definition_witness :
  FunctionObject Samples.search = resolve (PlainFunction Samples.search)
  ∧ NoDup (map fst (_enumerate_methods Samples.SupportsSearch)).
Proof.
  apply (enumerate_methods_nearest_definition Samples.SupportsSearch "get_headers"
           (FunctionObject Samples.search) (PlainFunction Samples.search));
    [|reflexivity].
  apply _enumerate_methods_spec. repeat split; try reflexivity.
  apply (bool_decide_unpack _). vm_compute. exact I.
Defined.

(** ** What the cache holds *)

Lemma cache_get_split (entries : list ((nat * nat) * BoundClass))
    (key : nat * nat) (cls : BoundClass) :
  cache_get entries key = Some cls →
  ∃ older newer,
    entries = older ++ (key, cls) :: newer
    ∧ cache_remove entries key = older ++ newer.
Proof.
  induction entries as [|[k v] entries IH]; simpl; [discriminate|].
  destruct (key_eqb k key) eqn:E.
  - apply key_eqb_eq in E as ->. intros [= ->]. by exists [], entries.
  - intros H. destruct (IH H) as (older & newer & -> & ->).
    by exists ((k, v) :: older), newer.
Qed.

Lemma bind_class_hit_Permutation (entries : list ((nat * nat) * BoundClass))
    (key : nat * nat) (cls : BoundClass) :
  cache_get entries key = Some cls →
  cache_remove entries key ++ [(key, cls)] ≡ₚ entries.
Proof.
  intros H. destruct (cache_get_split _ _ _ H) as (older & newer & -> & ->).
  rewrite <- app_assoc. apply Permutation_app_head.
  symmetry. apply Permutation_cons_append.
Qed.

Lemma bind_class_body_raise_identity (identity identity' : nat) (from_protocol : Class)
    (method_binder : MethodBinder) (e : Exc) :
  bind_class_body identity from_protocol method_binder = Raise e →
  bind_class_body identity' from_protocol method_binder = Raise e.
Proof.
  unfold bind_class_body.
  destruct (install_methods _ _ _) as [namespace|e']; simpl; [|done].
  unfold _update_bound_service. simpl. by destruct (class_abc from_protocol).
Qed.

(** One [bind_class] call, seen from the cache: either the key was cached
    and the entries are permuted, or the body ran. *)
Lemma bind_class_cases (from_protocol : Class) (method_binder : MethodBinder)
    (st : BindState) :
  let key := make_key from_protocol method_binder in
  let outcome := bind_class from_protocol method_binder st in
  (∃ cls,
      cache_get (cache st) key = Some cls
      ∧ fst outcome = Ok cls
      ∧ cache (snd outcome) ≡ₚ cache st
      ∧ next_identity (snd outcome) = next_identity st)
  ∨ (cache_get (cache st) key = None
     ∧ next_identity (snd outcome) = S (next_identity st)
     ∧ match bind_class_body (next_identity st) from_protocol method_binder with
       | Raise e => fst outcome = Raise e ∧ cache (snd outcome) = cache st
       | Ok cls =>
           fst outcome = Ok cls
           ∧ ∃ kept, cache (snd outcome) = kept ++ [(key, cls)]
                     ∧ kept `sublist_of` cache st
       end).
Proof.
  intros key outcome. subst outcome. unfold bind_class. fold key.
  destruct (cache_get (cache st) key) as [cls|] eqn:Hget.
  - left. exists cls. cbn [fst snd cache next_identity].
    split; [done|]. split; [done|]. split; [|done].
    by apply bind_class_hit_Permutation.
  - right. split; [done|].
    destruct (bind_class_body _ _ _) as [cls|e]; cbn [fst snd cache next_identity];
      [|done].
    split; [done|]. split; [done|]. eexists. split; [reflexivity|].
    destruct (Nat.leb maxsize (length (cache st))); [|done].
    destruct (cache st); [done | by apply sublist_cons].
Qed.

Lemma NoDup_fmap_eq {A B} (f : A → B) (l : list A) (x y : A) :
  NoDup (map f l) → x ∈ l → y ∈ l → f x = f y → x = y.
Proof.
  induction l as [|a l IH]; simpl; intros Hnd Hx Hy Hf; [by apply elem_of_nil in Hx|].
  apply NoDup_cons in Hnd as [Ha Hnd].
  apply elem_of_cons in Hx as [->|Hx]; apply elem_of_cons in Hy as [->|Hy].
  - done.
  - exfalso. apply Ha. rewrite Hf. apply list_elem_of_fmap. by exists y.
  - exfalso. apply Ha. rewrite <- Hf. apply list_elem_of_fmap. by exists x.
  - by apply IH.
Qed.

Lemma bind_class_identities_ok (from_protocol : Class) (method_binder : MethodBinder)
    (st : BindState) :
  identities_ok st → identities_ok (snd (bind_class from_protocol method_binder st)).
Proof.
  intros [Hnd Hlt].
  destruct (bind_class_cases from_protocol method_binder st)
    as [(cls & _ & _ & Hperm & Hnext)|(_ & Hnext & Hbody)].
  - split.
    + by rewrite Hperm.
    + intros entry Hentry. rewrite Hnext. apply Hlt. by rewrite <- Hperm.
  - destruct (bind_class_body (next_identity st) from_protocol method_binder)
      as [cls|e] eqn:Ebody.
    + destruct Hbody as (_ & kept & Hcache & Hsub).
      apply bind_class_body_Ok in Ebody as (_ & Hid & _).
      assert (Hkept : ∀ entry, entry ∈ kept → entry ∈ cache st)
        by (intros entry Hentry; by eapply elem_of_sublist).
      split.
      * rewrite Hcache, map_app. simpl. apply NoDup_app. split; [|split].
        -- eapply sublist_NoDup; [exact Hnd|]. by apply fmap_sublist.
        -- intros i Hi Hi'. apply list_elem_of_singleton in Hi'. subst i.
           apply list_elem_of_fmap in Hi as (entry & Heq & Hentry).
           apply Hkept, Hlt in Hentry. lia.
        -- apply NoDup_singleton.
      * intros entry Hentry. rewrite Hnext. rewrite Hcache in Hentry.
        apply elem_of_app in Hentry as [Hentry|Hentry].
        -- apply Hkept, Hlt in Hentry. lia.
        -- apply list_elem_of_singleton in Hentry as ->. simpl. lia.
    + destruct Hbody as [_ Hcache]. split; [by rewrite Hcache|].
      intros entry Hentry. rewrite Hnext. rewrite Hcache in Hentry.
      apply Hlt in Hentry. lia.
Qed.

Lemma bind_classes_identities_ok (calls : list (Class * MethodBinder)) (st : BindState) :
  identities_ok st → identities_ok (bind_classes calls st).
Proof.
  revert st. induction calls as [|[I f] calls IH]; intros st H; simpl; [done|].
  by apply IH, bind_class_identities_ok.
Qed.

Lemma identities_ok_initial : identities_ok initial_bind_state.
Proof.
  split; simpl; [constructor|]. intros entry H. by apply elem_of_nil in H.
Qed.

Lemma cache_get_elem (entries : list ((nat * nat) * BoundClass))
    (key : nat * nat) (cls : BoundClass) :
  cache_get entries key = Some cls → (key, cls) ∈ entries.
Proof.
  intros H. destruct (cache_get_split _ _ _ H) as (older & newer & -> & _).
  apply elem_of_app. right. apply list_elem_of_here.
Qed.

Lemma bind_class_all_built (from_protocol : Class) (method_binder : MethodBinder)
    (st : BindState) :
  (∀ entry, entry ∈ cache st → built_for (fst entry) (snd entry)) →
  (∀ entry, entry ∈ cache (snd (bind_class from_protocol method_binder st)) →
     built_for (fst entry) (snd entry))
  ∧ ∀ cls, fst (bind_class from_protocol method_binder st) = Ok cls →
      built_for (make_key from_protocol method_binder) cls.
Proof.
  intros Hall.
  destruct (bind_class_cases from_protocol method_binder st)
    as [(cls & Hget & Hfst & Hperm & _)|(_ & _ & Hbody)].
  - split.
    + intros entry Hentry. apply Hall. by rewrite <- Hperm.
    + intros c Hc. rewrite Hfst in Hc. injection Hc as <-.
      apply (Hall (_, cls)). by apply cache_get_elem.
  - destruct (bind_class_body (next_identity st) from_protocol method_binder)
      as [cls|e] eqn:Ebody.
    + destruct Hbody as (Hfst & kept & Hcache & Hsub).
      assert (Hbuilt : built_for (make_key from_protocol method_binder) cls)
        by (by exists (next_identity st), from_protocol, method_binder).
      split.
      * intros entry Hentry. rewrite Hcache in Hentry.
        apply elem_of_app in Hentry as [Hentry|Hentry].
        -- apply Hall. by eapply elem_of_sublist.
        -- by apply list_elem_of_singleton in Hentry as ->.
      * intros c Hc. rewrite Hfst in Hc. by injection Hc as <-.
    + destruct Hbody as [Hfst Hcache]. split.
      * intros entry Hentry. apply Hall. by rewrite <- Hcache.
      * intros c Hc. rewrite Hfst in Hc. discriminate.
Qed.

Lemma bind_classes_all_built (calls : list (Class * MethodBinder)) (st : BindState) :
  (∀ entry, entry ∈ cache st → built_for (fst entry) (snd entry)) →
  ∀ entry, entry ∈ cache (bind_classes calls st) → built_for (fst entry) (snd entry).
Proof.
  revert st. induction calls as [|[I f] calls IH]; intros st H; simpl; [done|].
  apply IH. by apply bind_class_all_built.
Qed.

(** X8: whatever was bound before, a class that [bind_class] returns, fresh or
    from the cache, is one its body built for an interface and a binder
    with the identities of the arguments: what holds of the classes the
    body builds holds of every class a caller gets. *)
Theorem bind_class_returns_built_class (before : list (Class * MethodBinder))
    (from_protocol : Class) (method_binder : MethodBinder)
    (cls : BoundClass) (st' : BindState) :
  bind_class from_protocol method_binder (bind_classes before initial_bind_state)
    = (Ok cls, st') →
  ∃ identity from_protocol' method_binder',
    class_identity from_protocol' = class_identity from_protocol
    ∧ binder_identity method_binder' = binder_identity method_binder
    ∧ bind_class_body identity from_protocol' method_binder' = Ok cls.
Proof.
  intros Hcall.
  destruct (bind_class_all_built from_protocol method_binder
              (bind_classes before initial_bind_state)) as [_ Hbuilt].
  - apply bind_classes_all_built. intros entry H. by apply elem_of_nil in H.
  - destruct (Hbuilt cls) as (identity & I & f & Hkey & Hbody); [by rewrite Hcall|].
    exists identity, I, f. unfold make_key in Hkey. by injection Hkey as -> ->.
Qed.

Lemma bind_class_returns_built_class_witness :
  match bind_class Httpbin.SupportsHttpbin (binder Httpbin.backend)
          (bind_classes [(Httpbin.SupportsHttpbin, binder Httpbin.backend);
                         (Httpbin.numbered 9, binder Httpbin.backend)]
                        initial_bind_state) with
  | (Ok cls, _) =>
      ∃ identity from_protocol' method_binder',
        class_identity from_protocol' = 1
        ∧ binder_identity method_binder' = 7
        ∧ bind_class_body identity from_protocol' method_binder' = Ok cls
  | (Raise _, _) => False
  end.
Proof.
  destruct (bind_class Httpbin.SupportsHttpbin (binder Httpbin.backend)
              (bind_classes [(Httpbin.SupportsHttpbin, binder Httpbin.backend);
                             (Httpbin.numbered 9, binder Httpbin.backend)]
                            initial_bind_state))
    as [[cls|e] st'] eqn:E; [|vm_compute in E; discriminate E].
  exact (bind_class_returns_built_class _ _ _ _ _ E).
Defined.

(** Classes returned under different keys have different identities,
    from any cache whose identities are in order. *)
Lemma bind_class_distinct_identities (st0 : BindState)
    (between : list (Class * MethodBinder))
    (protocol1 protocol2 : Class) (binder1 binder2 : MethodBinder)
    (cls1 cls2 : BoundClass) (st1 st2 : BindState) :
  identities_ok st0 →
  bind_class protocol1 binder1 st0 = (Ok cls1, st1) →
  bind_class protocol2 binder2 (bind_classes between st1) = (Ok cls2, st2) →
  make_key protocol1 binder1 ≠ make_key protocol2 binder2 →
  bound_identity cls1 ≠ bound_identity cls2.
Proof.
  intros Hids Hfirst Hsecond Hkeys.
  set (key1 := make_key protocol1 binder1) in *.
  set (owned := fun st : BindState =>
         (bound_identity cls1 < next_identity st)%nat
         ∧ ∀ entry, entry ∈ cache st →
             bound_identity (snd entry) = bound_identity cls1 → fst entry = key1).
  assert (Hstep : ∀ I f st, owned st → owned (snd (bind_class I f st))).
  { intros I f st [Hlt Hown].
    destruct (bind_class_cases I f st)
      as [(cls & _ & _ & Hperm & Hnext)|(_ & Hnext & Hbody)]; split.
    - by rewrite Hnext.
    - intros entry Hentry. apply Hown. by rewrite <- Hperm.
    - rewrite Hnext. lia.
    - destruct (bind_class_body (next_identity st) I f) as [cls|e] eqn:Ebody.
      + destruct Hbody as (_ & kept & Hcache & Hsub).
        apply bind_class_body_Ok in Ebody as (_ & Hid & _).
        intros entry Hentry. rewrite Hcache in Hentry.
        apply elem_of_app in Hentry as [Hentry|Hentry].
        * apply Hown. by eapply elem_of_sublist.
        * apply list_elem_of_singleton in Hentry as ->. simpl. lia.
      + destruct Hbody as [_ Hcache]. intros entry Hentry. apply Hown.
        by rewrite <- Hcache. }
  assert (Hsteps : ∀ calls st, owned st → owned (bind_classes calls st)).
  { intros calls. induction calls as [|[I f] calls IH]; intros st H; simpl; [done|].
    by apply IH, Hstep. }
  assert (Hstart : owned st1).
  { destruct Hids as [Hnd Hlt].
    destruct (bind_class_cases protocol1 binder1 st0)
      as [(cls & Hget & Hfst & Hperm & Hnext)|(_ & Hnext & Hbody)];
      rewrite Hfirst in *; cbn [fst snd] in *.
    - injection Hfst as ->. apply cache_get_elem in Hget. split.
      + rewrite Hnext. exact (Hlt _ Hget).
      + intros entry Hentry Hid. rewrite Hperm in Hentry.
        by rewrite (NoDup_fmap_eq _ _ entry (key1, cls) Hnd Hentry Hget Hid).
    - destruct (bind_class_body _ protocol1 binder1) as [cls|e] eqn:Ebody.
      + destruct Hbody as (Hfst & kept & Hcache & Hsub). injection Hfst as ->.
        apply bind_class_body_Ok in Ebody as (_ & Hid & _). split.
        * rewrite Hnext. lia.
        * intros entry Hentry Heq. rewrite Hcache in Hentry.
          apply elem_of_app in Hentry as [Hentry|Hentry].
          -- eapply elem_of_sublist in Hentry; [|exact Hsub].
             apply Hlt in Hentry. lia.
          -- by apply list_elem_of_singleton in Hentry as ->.
      + destruct Hbody as [Hfst _]. discriminate. }
  destruct (Hsteps between st1 Hstart) as [Hlt Hown].
  destruct (bind_class_cases protocol2 binder2 (bind_classes between st1))
    as [(cls & Hget & Hfst & _)|(_ & _ & Hbody)];
    rewrite Hsecond in *; cbn [fst snd] in *.
  - injection Hfst as ->. apply cache_get_elem in Hget.
    intros Heq. apply Hkeys. symmetry. exact (Hown _ Hget (eq_sym Heq)).
  - destruct (bind_class_body _ protocol2 binder2) as [cls|e] eqn:Ebody.
    + destruct Hbody as [Hfst _]. injection Hfst as ->.
      apply bind_class_body_Ok in Ebody as (_ & Hid & _). lia.
    + destruct Hbody as [Hfst _]. discriminate.
Qed.

(** X9: two pairs with different cache keys never get the same class: however
    many bindings lie before and between the two calls, the identities of
    the two classes differ. *)
Theorem distinct_pairs_distinct_classes (before between : list (Class * MethodBinder))
    (protocol1 protocol2 : Class) (binder1 binder2 : MethodBinder)
    (cls1 cls2 : BoundClass) (st1 st2 : BindState) :
  bind_class protocol1 binder1 (bind_classes before initial_bind_state) = (Ok cls1, st1) →
  bind_class protocol2 binder2 (bind_classes between st1) = (Ok cls2, st2) →
  make_key protocol1 binder1 ≠ make_key protocol2 binder2 →
  bound_identity cls1 ≠ bound_identity cls2.
Proof.
  intros Hfirst Hsecond Hkeys.
  eapply bind_class_distinct_identities; [|exact Hfirst|exact Hsecond|exact Hkeys].
  apply bind_classes_identities_ok, identities_ok_initial.
Qed.

Lemma distinct_pairs_distinct_classes_witness :
  match bind_class Httpbin.SupportsHttpbin (binder Httpbin.backend) initial_bind_state with
  | (Ok cls1, st1) =>
      match bind_class Httpbin.SupportsMore (binder Httpbin.backend) st1 with
      | (Ok cls2, _) => bound_identity cls1 ≠ bound_identity cls2
      | (Raise _, _) => False
      end
  | (Raise _, _) => False
  end.
Proof.
  destruct (bind_class Httpbin.SupportsHttpbin (binder Httpbin.backend) initial_bind_state)
    as [[cls1|e] st1] eqn:E1; [|vm_compute in E1; discriminate E1].
  destruct (bind_class Httpbin.SupportsMore (binder Httpbin.backend) st1)
    as [[cls2|e] st2] eqn:E2.
  - apply (distinct_pairs_distinct_classes [] [] _ _ _ _ _ _ _ _ E1 E2). discriminate.
  - vm_compute in E1. injection E1 as <- <-. vm_compute in E2. discriminate E2.
Defined.

(** X10: a binding that fails is not memoized: the cache is as before, and
    binding the same pair again runs the body again and fails in the same
    way. *)
Theorem bind_class_failure_not_cached (from_protocol : Class)
    (method_binder : MethodBinder) (st st' : BindState) (e : Exc) :
  bind_class from_protocol method_binder st = (Raise e, st') →
  cache st' = cache st
  ∧ ∃ st'', bind_class from_protocol method_binder st' = (Raise e, st'')
            ∧ cache st'' = cache st
            ∧ next_identity st'' = S (S (next_identity st)).
Proof.
  unfold bind_class.
  destruct (cache_get (cache st) (make_key from_protocol method_binder)) eqn:Hget;
    [discriminate|].
  destruct (bind_class_body (next_identity st) from_protocol method_binder)
    as [cls|e'] eqn:Ebody; [discriminate|].
  intros [= -> <-]. cbn [cache next_identity]. split; [done|].
  rewrite Hget.
  rewrite (bind_class_body_raise_identity _ (S (next_identity st)) _ _ _ Ebody).
  by eexists.
Qed.

Lemma bind_class_failure_not_cached_witness :
  ∃ st'',
    bind_class Samples.SupportsBroken (binder Httpbin.backend)
      (snd (bind_class Samples.SupportsBroken (binder Httpbin.backend) initial_bind_state))
    = (Raise (NameError "Respnse"), st'')
    ∧ cache st'' = [].
Proof.
  destruct (bind_class_failure_not_cached Samples.SupportsBroken (binder Httpbin.backend)
              initial_bind_state
              (snd (bind_class Samples.SupportsBroken (binder Httpbin.backend)
                               initial_bind_state))
              (NameError "Respnse") eq_refl)
    as (_ & st'' & Hcall & Hcache & _).
  by exists st''.
Defined.

(** ** One call of a bound method *)

Lemma bound_method_complete (base : BaseHttpxBackend) (signature : Signature)
    (response_extractors : ResponseExtractors)
    (service backend : nat) (args : list Value) (kwargs : dict Value)
    (w : Runtime) (class_id : nat) (attributes : gmap string Value)
    (client : ClientRequest → result Response) (cm : ContextManager) (request : Request) :
  build_request signature service args kwargs = Ok request →
  objects w !! service = Some (ServiceObject class_id attributes) →
  attributes !! "backend" = Some (VRef backend) →
  objects w !! backend = Some (BackendObject client cm) →
  bound_method base signature response_extractors service args kwargs w
  = (after_exit cm
       (transport_result base client request (return_type signature) response_extractors),
     {| objects := objects w;
        trace := trace w ++ call_events backend request (decoded client request) |}).
Proof.
  intros Hreq Hservice Hattr Hbackend.
  unfold bound_method, async_with, and_then, lift, get_backend_attribute, get_backend.
  rewrite Hreq, Hservice, Hattr, Hbackend. cbn [fst snd emit objects].
  erewrite HttpxBackend_call_unfold by (cbn [objects]; exact Hbackend). cbv zeta.
  unfold transport_result, decoded, call_events, after_exit.
  destruct (client (request_arguments request)) as [response|e].
  - destruct (is_success response); cbn [fst snd emit objects trace].
    + destruct (_parse_response base response (return_type signature) response_extractors);
        by rewrite <- !app_assoc.
    + by rewrite <- !app_assoc.
  - cbn [fst snd emit objects trace]. by rewrite <- !app_assoc.
Qed.

Lemma bound_method_cases (base : BaseHttpxBackend) (signature : Signature)
    (response_extractors : ResponseExtractors)
    (service : nat) (args : list Value) (kwargs : dict Value) (w : Runtime) :
  let outcome := bound_method base signature response_extractors service args kwargs w in
  (is_ok (fst outcome) = false ∧ snd outcome = w)
  ∨ ∃ request backend client cm,
      build_request signature service args kwargs = Ok request
      ∧ objects w !! backend = Some (BackendObject client cm)
      ∧ outcome
        = (after_exit cm
             (transport_result base client request (return_type signature)
                               response_extractors),
           {| objects := objects w;
              trace := trace w ++ call_events backend request (decoded client request) |}).
Proof.
  intros outcome. subst outcome.
  destruct (build_request signature service args kwargs) as [request|e] eqn:Hreq.
  2:{ left. unfold bound_method, and_then, lift. by rewrite Hreq. }
  destruct (objects w !! service) as [[c0 m0|class_id attributes]|] eqn:Hservice.
  1,3: left; unfold bound_method, and_then, lift, get_backend_attribute;
       by rewrite Hreq, Hservice.
  destruct (attributes !! "backend") as [value|] eqn:Hattr.
  2:{ left. unfold bound_method, and_then, lift, get_backend_attribute.
      by rewrite Hreq, Hservice, Hattr. }
  destruct value as [| | | | |backend].
  1-5: left; unfold bound_method, and_then, lift, get_backend_attribute;
       by rewrite Hreq, Hservice, Hattr.
  destruct (objects w !! backend) as [[client cm|c1 a1]|] eqn:Hbackend.
  2,3: left; unfold bound_method, and_then, lift, get_backend_attribute, get_backend;
       by rewrite Hreq, Hservice, Hattr, Hbackend.
  right. exists request, backend, client, cm. split; [done|]. split; [done|].
  by eapply bound_method_complete.
Qed.






(** X12: whatever the arguments and the world, a call of a bound method either
    raises before anything happens, leaving the world untouched, or leaves
    the trace of one complete call: never more than one request, never a
    decoding without a request, never an entered context manager that is
    not left; and it changes no object. *)
Theorem bound_method_single_request (base : BaseHttpxBackend) (signature : Signature)
    (service : nat) (args : list Value) (kwargs : dict Value) (w : Runtime) :
  let outcome := call (bind_method base signature) service args kwargs w in
  objects (snd outcome) = objects w
  ∧ ((is_ok (fst outcome) = false ∧ trace (snd outcome) = trace w)
     ∨ ∃ backend request parsed,
         trace (snd outcome) = trace w ++ call_events backend request parsed
         ∧ transport_calls (snd outcome)
           = transport_calls w ++ [request_arguments request]
         ∧ decodings (snd outcome) = decodings w ++ option_list parsed).
Proof.
  intros outcome. subst outcome. simpl. split; [apply bound_method_objects|].
  destruct (bound_method_cases base signature
              (_build_response_extractors base (response_markers signature))
              service args kwargs w)
    as [[Hfail ->]|(request & backend & client & cm & _ & _ & ->)].
  - by left.
  - right. exists backend, request, (decoded client request). cbn [fst snd trace].
    split; [done|]. unfold transport_calls, decodings, call_events. cbn [trace].
    rewrite !omap_app. simpl.
    destruct (decoded client request); simpl; by rewrite ?app_nil_r.
Qed.

(** ** From the constructors to the call *)



(** ** The engine over time *)

Lemma step_persist (base : BaseHttpxBackend) (e e' : Engine) :
  step base e e' →
  (∀ loc o, objects (world e) !! loc = Some o → objects (world e') !! loc = Some o)
  ∧ trace (world e) `prefix_of` trace (world e').
Proof.
  intros Hstep. destruct Hstep as [I f e|I B e|signature service args kwargs e].
  - done.
  - pose proof (bind_objects I B e) as H. unfold bind in *.
    destruct (bind_class I (binder B) (binding e)) as [[cls|exc] st]; cbn [fst snd] in *.
    + destruct H as (Hfresh & class_id & Hobj).
      destruct (BaseBoundService_init_spec cls (backend_ref B) (world e)) as (_ & _ & Ht).
      destruct (BaseBoundService_init cls (backend_ref B) (world e)) as [self w] eqn:E.
      cbn [fst snd world] in *. split.
      * intros loc o Hloc. rewrite Hobj, lookup_insert_ne; [done|]. congruence.
      * by rewrite Ht.
    + done.
  - cbn [world call bind_method]. split.
    + intros loc o Hloc. by rewrite bound_method_objects.
    + destruct (bound_method_cases base signature
                  (_build_response_extractors base (response_markers signature))
                  service args kwargs (world e))
        as [[_ ->]|(request & backend & client & cm & _ & _ & ->)]; [done|].
      cbn [snd trace]. by apply prefix_app_r.
Qed.

(** X14: no operation of the engine removes or changes an object: a backend (its
    client and its [request_with]) and a service instance stay as they are
    through any sequence of bindings and calls, and the trace of what the
    backends were asked only grows. *)
Theorem engine_objects_persist (base : BaseHttpxBackend) (e e' : Engine) :
  rtc (step base) e e' →
  (∀ loc o, objects (world e) !! loc = Some o → objects (world e') !! loc = Some o)
  ∧ trace (world e) `prefix_of` trace (world e').
Proof.
  intros Hsteps. induction Hsteps as [e|e e1 e2 Hstep Hsteps IH]; [done|].
  destruct (step_persist base e e1 Hstep) as [Hobj1 Htrace1].
  destruct IH as [Hobj2 Htrace2]. split.
  - intros loc o Hloc. by apply Hobj2, Hobj1.
  - by etrans.
Qed.

Lemma engine_objects_persist_witness :
  let e1 := snd (bind Httpbin.SupportsHttpbin Httpbin.backend Httpbin.engine) in
  let e2 :=
    {| binding := binding e1;
       world := snd (call (bind_method Httpbin.base Httpbin.get_status_signature)
                          1 [] [] (world e1)) |} in
  objects (world e2) !! 0 = Some (BackendObject Httpbin.httpbin asyncnullcontext).
Proof.
  intros e1 e2.
  destruct (engine_objects_persist Httpbin.base Httpbin.engine e2) as [Hobj _].
  - eapply rtc_l; [apply (step_bind _ Httpbin.SupportsHttpbin Httpbin.backend)|].
    eapply rtc_l; [apply (step_call _ Httpbin.get_status_signature 1 [] [])|].
    apply rtc_refl.
  - apply Hobj. reflexivity.
Defined.

(** X15: binding asks nothing of the backend: [bind] leaves the trace as it
    was, and when it fails, it leaves the whole world as it was. *)
Theorem bind_sends_nothing (from_protocol : Class) (to_backend : ProvidesBinder)
    (e : Engine) :
  trace (world (snd (bind from_protocol to_backend e))) = trace (world e)
  ∧ (is_ok (fst (bind from_protocol to_backend e)) = false →
     world (snd (bind from_protocol to_backend e)) = world e).
Proof.
  unfold bind.
  destruct (bind_class from_protocol (binder to_backend) (binding e)) as [[cls|exc] st].
  - destruct (BaseBoundService_init_spec cls (backend_ref to_backend) (world e))
      as (_ & _ & Ht).
    destruct (BaseBoundService_init cls (backend_ref to_backend) (world e)) as [self w].
    cbn [fst snd world is_ok] in *. split; [done | discriminate].
  - done.
Qed.

(** ** The memoization of [bind_class] *)

(** C1: [bind_class] is memoized by a least-recently-used cache of at most
    100 entries, keyed by the identities of the interface and of the
    binder.  A call that returns a class leaves it in the cache under its
    key; when the key was not cached the class is the one the body has just
    built, with an identity no cached class has, and when it was cached no
    class is built.  A later call under the same key returns that very class
    and builds none, as long as the calls in between used fewer than 100
    other keys; a call under another key returns a class of another
    identity; the cache never holds more than 100 entries; and two [bind]s
    for the same backend give two instances of that one class. *)
Theorem bind_class_memoized (before others : list (Class * MethodBinder))
    (from_protocol : Class) (method_binder : MethodBinder)
    (cls : BoundClass) (st1 : BindState) :
  bind_class from_protocol method_binder (bind_classes before initial_bind_state)
    = (Ok cls, st1) →
  (length (other_keys (make_key from_protocol method_binder) others) < maxsize)%nat →
  cache_get (cache st1) (make_key from_protocol method_binder) = Some cls
  ∧ (length (cache st1) ≤ maxsize)%nat
  ∧ match cache_get (cache (bind_classes before initial_bind_state))
                    (make_key from_protocol method_binder) with
    | None =>
        bind_class_body (next_identity (bind_classes before initial_bind_state))
                        from_protocol method_binder
        = Ok cls
        ∧ bound_identity cls = next_identity (bind_classes before initial_bind_state)
        ∧ next_identity st1 = S (next_identity (bind_classes before initial_bind_state))
        ∧ ∀ entry,
            entry ∈ cache (bind_classes before initial_bind_state) →
            bound_identity (snd entry) ≠ bound_identity cls
    | Some cached =>
        cached = cls
        ∧ next_identity st1 = next_identity (bind_classes before initial_bind_state)
    end
  ∧ (∀ from_protocol' method_binder',
        make_key from_protocol' method_binder' = make_key from_protocol method_binder →
        ∃ st2,
          bind_class from_protocol' method_binder' (bind_classes others st1) = (Ok cls, st2)
          ∧ next_identity st2 = next_identity (bind_classes others st1)
          ∧ (length (cache st2) ≤ maxsize)%nat)
  ∧ (∀ from_protocol' method_binder' cls' st2,
        make_key from_protocol' method_binder' ≠ make_key from_protocol method_binder →
        bind_class from_protocol' method_binder' (bind_classes others st1) = (Ok cls', st2) →
        bound_identity cls' ≠ bound_identity cls)
  ∧ (∀ to_backend w,
        binder to_backend = method_binder →
        ∃ s1 s2 e1 e2,
          bind from_protocol to_backend
               {| binding := bind_classes before initial_bind_state; world := w |}
          = (Ok s1, e1)
          ∧ bind from_protocol to_backend
                 {| binding := bind_classes others (binding e1); world := world e1 |}
            = (Ok s2, e2)
          ∧ s1 ≠ s2
          ∧ class_of (world e2) s1 = Some (bound_identity cls)
          ∧ class_of (world e2) s2 = Some (bound_identity cls)).
Proof.
  intros Hfirst Hfew.
  set (st0 := bind_classes before initial_bind_state) in *.
  set (key := make_key from_protocol method_binder) in *.
  set (universe := map (fun c : Class * MethodBinder => make_key (fst c) (snd c)) others).
  assert (Hok : cache_ok st0) by apply bind_classes_cache_ok, cache_ok_initial.
  assert (Hids : identities_ok st0)
    by apply bind_classes_identities_ok, identities_ok_initial.
  pose proof (bind_class_stores _ _ _ _ _ universe Hok Hfirst) as Hret.
  assert (Hret' : retains key cls universe (bind_classes others st1)).
  { apply bind_classes_retains; [exact Hfew| |exact Hret].
    intros c Hc. apply list_elem_of_fmap. by exists c. }
  assert (Hhit : ∀ I f, make_key I f = key →
            ∃ st2, bind_class I f (bind_classes others st1) = (Ok cls, st2)
                   ∧ next_identity st2 = next_identity (bind_classes others st1)
                   ∧ (length (cache st2) ≤ maxsize)%nat).
  { intros I f Hkey. destruct Hret' as (Hok' & older & newer & Hcache & Huniverse).
    assert (Hret' : retains key cls universe (bind_classes others st1))
      by (split; [exact Hok' | by exists older, newer]).
    assert (Hget : cache_get (cache (bind_classes others st1)) (make_key I f) = Some cls).
    { destruct Hok' as [Hnd _]. rewrite Hcache in Hnd.
      rewrite Hkey, Hcache. by apply cache_get_middle. }
    eexists. split; [by apply bind_class_hit|]. split; [reflexivity|].
    pose proof (bind_class_cache_ok I f _ (proj1 Hret')) as [_ Hlen].
    by rewrite (bind_class_hit _ _ _ _ Hget) in Hlen. }
  split.
  { destruct Hret as ([Hnd _] & older & newer & Hcache & _).
    rewrite Hcache in Hnd. rewrite Hcache. by apply cache_get_middle. }
  split; [apply Hret|].
  split.
  { destruct (bind_class_cases from_protocol method_binder st0)
      as [(cached & Hget & Hfst & _ & Hnext)|(Hget & Hnext & Hbody)];
      rewrite Hfirst in *; cbn [fst snd] in *; subst key; rewrite Hget.
    - injection Hfst as ->. done.
    - destruct (bind_class_body (next_identity st0) from_protocol method_binder)
        as [c|e] eqn:Ebody.
      + destruct Hbody as [Hfst _]. injection Hfst as ->.
        apply bind_class_body_Ok in Ebody as (_ & Hid & _).
        split; [done|]. split; [done|]. split; [done|].
        intros entry Hentry. destruct Hids as [_ Hlt]. apply Hlt in Hentry. lia.
      + destruct Hbody as [Hfst _]. discriminate. }
  split; [exact Hhit|].
  split.
  { intros I f cls' st2 Hkey Hcall Heq. 
    apply (bind_class_distinct_identities st0 others from_protocol I method_binder f
             cls cls' st1 st2 Hids Hfirst Hcall); [|done].
    intros Hsame. apply Hkey. symmetry. exact Hsame. }
  intros to_backend w <-.
  destruct (Hhit from_protocol (binder to_backend) eq_refl) as (st2 & Hsecond & _).
  eexists _, _, _, _. split; [by apply bind_Ok|]. cbn [binding world].
  split; [by apply bind_Ok|]. cbn [world].
  set (w1 := snd (BaseBoundService_init cls (backend_ref to_backend) w)).
  destruct (BaseBoundService_init_spec cls (backend_ref to_backend) w) as (Hf1 & Ho1 & _).
  destruct (BaseBoundService_init_spec cls (backend_ref to_backend) w1) as (Hf2 & Ho2 & _).
  set (s1 := fst (BaseBoundService_init cls (backend_ref to_backend) w)) in *.
  set (s2 := fst (BaseBoundService_init cls (backend_ref to_backend) w1)) in *.
  assert (Hne : s1 ≠ s2).
  { intros Heq. fold w1 in Ho1. rewrite Ho1, <- Heq, lookup_insert_eq in Hf2. discriminate. }
  split; [exact Hne|]. unfold class_of. rewrite Ho2. split.
  - rewrite lookup_insert_ne by done. fold w1 in Ho1. by rewrite Ho1, lookup_insert_eq.
  - by rewrite lookup_insert_eq.
Qed.

Lemma bind_class_memoized_witness :
  match bind_class Httpbin.SupportsHttpbin (binder Httpbin.backend) initial_bind_state with
  | (Ok cls, st1) =>
      cache_get (cache st1) (1, 7) = Some cls
      ∧ bound_identity cls = 0
      ∧ ∃ st2,
          bind_class Httpbin.SupportsHttpbin (binder Httpbin.backend)
            (bind_classes [(Httpbin.numbered 5, binder Httpbin.backend);
                           (Httpbin.numbered 6, binder Httpbin.backend)] st1)
          = (Ok cls, st2)
          ∧ next_identity st2 = 3
  | (Raise _, _) => False
  end.
Proof.
  destruct (bind_class Httpbin.SupportsHttpbin (binder Httpbin.backend) initial_bind_state)
    as [[cls|e] st1] eqn:E; [|vm_compute in E; discriminate E].
  destruct (bind_class_memoized []
              [(Httpbin.numbered 5, binder Httpbin.backend);
               (Httpbin.numbered 6, binder Httpbin.backend)] _ _ _ _ E)
    as (Hstored & _ & Hmiss & Hagain & _).
  - vm_compute. lia.
  - split; [exact Hstored|]. simpl in Hmiss. destruct Hmiss as (_ & Hid & _).
    split; [exact Hid|].
    destruct (Hagain Httpbin.SupportsHttpbin (binder Httpbin.backend) eq_refl)
      as (st2 & Hcall & Hnext & _).
    exists st2. split; [exact Hcall|]. rewrite Hnext.
    vm_compute in E. injection E as <- <-. reflexivity.
Defined.
